(** * gcs-uploader: resumable uploads to Google Cloud Storage

    A shallow embedding of [src/gcs.js] (the upload state machine and
    the chunk-transfer loop) and of [src/steamer.js] (the chunk source),
    followed by the properties of the specification that concern them.

    JavaScript values are modelled by the types the code gives them:
    an offset is [undefined], a number, [NaN] or the string ['*'];
    the five event queues are arrays; listeners are callbacks whose
    invocations are recorded, in order, in a call log.  Promises are
    modelled by a list of pending tasks that the environment settles
    one at a time (the browser's task queue); callbacks that a resolved
    promise runs as microtasks run inside the step that resolved it. *)

From Stdlib Require Import ZArith List String Ascii Bool Lia.
From Stdlib.Strings Require Import Byte.
From Stdlib Require Import Decimal DecimalString DecimalPos.
Import ListNotations.
Open Scope string_scope.
Open Scope Z_scope.

(* ================================================================== *)
(** ** JavaScript values used by the uploader *)

(** The values that flow through [offset]: [undefined] on the first
    call of [doUpload], a number parsed from a [Range] header, [NaN]
    when [parseInt] finds no digit, and [RESUME_OFFSET]. *)
Inductive Offset : Type :=
| Undefined
| Num (n : Z)
| NaN
| Star.

Definition RESUME_OFFSET : Offset := Star.

(** JavaScript truthiness: [undefined], [0] and [NaN] are falsy, the
    non-empty string ['*'] is truthy. *)
Definition truthy (o : Offset) : bool :=
  match o with
  | Undefined => false
  | Num n => negb (n =? 0)
  | NaN => false
  | Star => true
  end.

(** [offset === RESUME_OFFSET] *)
Definition is_resume (o : Offset) : bool :=
  match o with Star => true | _ => false end.

(** Errors that reach the [catch] callbacks. *)
Inductive Error : Type :=
| ErrNoFile              (* 'You need to provide a file to upload' *)
| ErrUnsupportedFileAPI  (* 'Unsupported File API' *)
| ErrMissingFileName     (* 'Missing mandatory file name' *)
| ErrSession             (* 'Could not get session URL from GCS' *)
| ErrInvalidRange        (* `Invalid 'Range' header received` *)
| ErrUnexpected          (* 'Unexpected response' *)
| ErrType                (* TypeError: property of null/undefined, failed fetch *)
| ErrSyntax              (* response.json() on a malformed body *)
| ErrRead.               (* FileReader error *)

(* ------------------------------------------------------------------ *)
(** *** Strings: template literals, [split], [includes], [parseInt] *)

(** [`${n}`] for an integer-valued number. *)
Definition string_of_Z (n : Z) : string :=
  NilEmpty.string_of_int (Z.to_int n).

Definition string_of_offset (o : Offset) : string :=
  match o with
  | Undefined => "undefined"
  | Num n => string_of_Z n
  | NaN => "NaN"
  | Star => "*"
  end.

(** [s.split(sep)] for a one-character separator. *)
Fixpoint split (sep : ascii) (s : string) : list string :=
  match s with
  | EmptyString => [EmptyString]
  | String c s' =>
      if Ascii.eqb c sep then EmptyString :: split sep s'
      else match split sep s' with
           | [] => [String c EmptyString]
           | h :: t => String c h :: t
           end
  end.

(** [s.includes(c)] for a one-character needle. *)
Fixpoint includes (c : ascii) (s : string) : bool :=
  match s with
  | EmptyString => false
  | String a s' => Ascii.eqb a c || includes c s'
  end.

Definition is_white (c : ascii) : bool :=
  let n := nat_of_ascii c in
  (Nat.eqb n 9 || Nat.eqb n 10 || Nat.eqb n 11 || Nat.eqb n 12
   || Nat.eqb n 13 || Nat.eqb n 32)%bool.

Fixpoint trim_left (s : string) : string :=
  match s with
  | String c s' => if is_white c then trim_left s' else s
  | EmptyString => EmptyString
  end.

(** Value of a character as a digit of the given radix (10 or 16). *)
Definition digit_value (radix : Z) (c : ascii) : option Z :=
  let n := Z.of_nat (nat_of_ascii c) in
  let v :=
    if (48 <=? n) && (n <=? 57) then Some (n - 48)
    else if (97 <=? n) && (n <=? 102) then Some (n - 87)
    else if (65 <=? n) && (n <=? 70) then Some (n - 55)
    else None in
  match v with
  | Some d => if d <? radix then Some d else None
  | None => None
  end.

(** The longest prefix of digits, accumulated most significant first;
    [None] when the string does not start with a digit. *)
Fixpoint parse_digits (radix : Z) (acc : option Z) (s : string) : option Z :=
  match s with
  | EmptyString => acc
  | String c s' =>
      match digit_value radix c with
      | Some d =>
          parse_digits radix
            (Some (match acc with Some a => a * radix + d | None => d end)) s'
      | None => acc
      end
  end.

(** [parseInt(s)] with no radix argument: leading white space skipped,
    an optional sign, a [0x]/[0X] prefix selecting radix 16, then the
    longest run of digits; [NaN] when there is none.  Numbers are the
    integers they denote: byte offsets stay below 2^53, where the
    doubles of JavaScript are exact. *)
Definition parseInt (s : string) : Offset :=
  let s := trim_left s in
  let '(sign, s) :=
    match s with
    | String "-" r => (-1, r)
    | String "+" r => (1, r)
    | _ => (1, s)
    end in
  let '(radix, s) :=
    match s with
    | String "0" (String "x" r) => (16, r)
    | String "0" (String "X" r) => (16, r)
    | _ => (10, s)
    end in
  match parse_digits radix None s with
  | Some n => Num (sign * n)
  | None => NaN
  end.

(* ================================================================== *)
(** ** steamer.js: the chunk source *)

Record File : Type := mkFile {
  name : string;
  type : string;
  content : list byte
}.

(** [file.size] *)
Definition file_size (f : File) : Z := Z.of_nat (List.length (content f)).

(** [Blob.slice(start, end)] of the File API: negative positions count
    from the end, both positions are clamped to the blob, and an empty
    blob results when the end does not exceed the start. *)
Definition clamp (size pos : Z) : Z :=
  if pos <? 0 then Z.max (size + pos) 0 else Z.min pos size.

Definition slice (f : File) (start stop : Z) : list byte :=
  let s := clamp (file_size f) start in
  let e := clamp (file_size f) stop in
  firstn (Z.to_nat (Z.max (e - s) 0)) (skipn (Z.to_nat s) (content f)).

(** The globals the constructor looks for. *)
Record Window : Type := mkWindow {
  window_File : bool;
  window_FileReader : bool
}.

Definition DEFAULT_CHUNK_SIZE : Z := 256 * 1024 * 4.

Record Steamer : Type := mkSteamer {
  file : File;
  chunkSize : Z;
  progress : Z
}.

(** [new Steamer(filename, chunkSize)]; the arguments may be absent. *)
Definition Steamer_new (win : Window) (filename : option File)
    (chunk_size : option Z) : Error + Steamer :=
  if negb (window_File win) || negb (window_FileReader win)
  then inl ErrUnsupportedFileAPI
  else match filename with
       | None => inl ErrMissingFileName
       | Some f =>
           inr {| file := f;
                  chunkSize :=
                    match chunk_size with
                    | Some c => if c =? 0 then DEFAULT_CHUNK_SIZE else c
                    | None => DEFAULT_CHUNK_SIZE
                    end;
                  progress := 0 |}
       end.

(** What the promise of [next] resolves with. *)
Record Chunk : Type := mkChunk {
  data : list byte;
  chunk_size : Z
}.

(** [offset || this.progress] *)
Definition start_offset (s : Steamer) (offset : Offset) : Z :=
  match offset with
  | Num n => if n =? 0 then progress s else n
  | _ => progress s
  end.

(** The synchronous part of [next(offset)]: [None] is
    [Promise.resolve()], [Some blob] is the blob handed to
    [readAsArrayBuffer]. *)
Definition next (s : Steamer) (offset : Offset) : option (list byte) :=
  if is_resume offset then None
  else
    let _offset := start_offset s offset in
    let limit := _offset + chunkSize s in
    let limit := if limit <=? file_size (file s) then limit
                 else file_size (file s) in
    Some (slice (file s) _offset limit).

(** [reader.onloadend]: the cursor grows by [event.loaded] and the
    promise resolves with the bytes and their number.  (The guard
    [!event.target.readyState == FileReader.DONE] compares [false] with
    [2] and never returns early.) *)
Definition onloadend (s : Steamer) (result : list byte) : Steamer * Chunk :=
  let loaded := Z.of_nat (List.length result) in
  ({| file := file s; chunkSize := chunkSize s;
      progress := progress s + loaded |},
   {| data := result; chunk_size := loaded |}).

(* ================================================================== *)
(** ** gcs.js: the [Upload] object *)

(** Upload states. *)
Inductive Status : Type := DONE | INPROGRESS | PAUSE | CANCEL.

Definition Status_eqb (a b : Status) : bool :=
  match a, b with
  | DONE, DONE | INPROGRESS, INPROGRESS | PAUSE, PAUSE | CANCEL, CANCEL => true
  | _, _ => false
  end.

(** A listener is a callback supplied by the caller; it is identified
    by a number and every invocation is recorded with its argument
    ([None] when the code calls it with no argument). *)
Definition Listener : Type := nat.

Inductive Call : Type :=
| OnProgress (cb : Listener) (arg : Offset)
| OnError (cb : Listener) (arg : Error)
| OnDone (cb : Listener) (arg : option bool)
| OnCancel (cb : Listener) (arg : option bool)
| OnPause (cb : Listener) (arg : option bool).

Record EventQueue : Type := mkEventQueue {
  onprogress : list Offset;
  onerror : list Error;
  ondone : list bool;
  oncancel : list bool;
  onpause : list bool
}.

(** [upload.state]: the backing fields of the setters. *)
Record State : Type := mkState {
  _progress : Offset;
  _error : option Error;
  _done : bool;
  _cancel : bool;
  _pause : bool
}.

Record Upload : Type := mkUpload {
  eventQueue : EventQueue;
  size : Z;
  contentType : string;
  steamer : Steamer;
  sessionUri : option string;
  state : State;
  _onprogress : option Listener;
  _onerror : option Listener;
  _ondone : option Listener;
  _oncancel : option Listener;
  _onpause : option Listener
}.

(** [new Upload(size, contentType, steamer)] *)
Definition Upload_new (size : Z) (contentType : string) (steamer : Steamer)
    : Upload :=
  {| eventQueue := {| onprogress := []; onerror := []; ondone := [];
                      oncancel := []; onpause := [] |};
     size := size;
     contentType := contentType;
     steamer := steamer;
     sessionUri := None;
     state := {| _progress := Num 0; _error := None; _done := false;
                 _cancel := false; _pause := false |};
     _onprogress := None; _onerror := None; _ondone := None;
     _oncancel := None; _onpause := None |}.

(** [get currentState] *)
Definition currentState (u : Upload) : Status :=
  if _done (state u) then DONE
  else if _cancel (state u) then CANCEL
  else if _pause (state u) then PAUSE
  else INPROGRESS.

(* ------------------------------------------------------------------ *)
(** *** The requests the uploader sends *)

Inductive HeaderValue : Type :=
| HStr (s : string)
| HNum (n : Z).

(** The [options] argument of [fetch]. *)
Record Options : Type := mkOptions {
  method : string;
  mode : string;
  headers : list (string * HeaderValue);
  body : option (list byte)
}.

(** One call of [uploadChunk] that reached [fetch]: the [range]
    argument it was given, and the URL and options it gave [fetch]. *)
Record Put : Type := mkPut {
  range : string;
  url : option string;
  options : Options
}.

(** What the server answers to a chunk PUT: the status and the [Range]
    response header, if any. *)
Record Response : Type := mkResponse {
  status : Z;
  Range : option string
}.

(** What the server answers to the session request: the status and the
    [data] member of the JSON body ([None] when the body is not JSON
    or not an object). *)
Record SessionResponse : Type := mkSessionResponse {
  session_status : Z;
  session_json : option (option string)
}.

(** How a [fetch] settles: fulfilled with a response, or rejected with
    a [TypeError] on a network failure. *)
Inductive Settled (A : Type) : Type :=
| Fulfilled (response : A)
| Rejected.
Arguments Fulfilled {A} response.
Arguments Rejected {A}.

(** What the promise of [uploadChunk] resolves with: [{ done: true }]
    or [{ offset: ... }]. *)
Inductive Reply : Type :=
| ReplyDone
| ReplyOffset (offset : Offset).

(* ------------------------------------------------------------------ *)
(** *** The world: the upload, what it has called, what is in flight *)

(** Asynchronous operations whose completion the loop waits for. *)
Inductive Task : Type :=
| TSession                                  (* fetch of getSessionUri *)
| TRead (offset : Offset) (blob : list byte) (* readAsArrayBuffer(blob) *)
| TPut (offset : Offset)                     (* fetch of uploadChunk *)
| TThrown (error : Error).                   (* a callback threw *)

Record World : Type := mkWorld {
  upload : Upload;
  calls : list Call;      (* listener invocations, oldest first *)
  puts : list Put;        (* chunk requests sent, oldest first *)
  pending : list Task
}.

Definition with_upload (f : Upload -> Upload) (w : World) : World :=
  {| upload := f (upload w); calls := calls w; puts := puts w;
     pending := pending w |}.

Definition with_state (f : State -> State) (u : Upload) : Upload :=
  {| eventQueue := eventQueue u; size := size u;
     contentType := contentType u; steamer := steamer u;
     sessionUri := sessionUri u; state := f (state u);
     _onprogress := _onprogress u; _onerror := _onerror u;
     _ondone := _ondone u; _oncancel := _oncancel u;
     _onpause := _onpause u |}.

Definition with_queue (f : EventQueue -> EventQueue) (u : Upload) : Upload :=
  {| eventQueue := f (eventQueue u); size := size u;
     contentType := contentType u; steamer := steamer u;
     sessionUri := sessionUri u; state := state u;
     _onprogress := _onprogress u; _onerror := _onerror u;
     _ondone := _ondone u; _oncancel := _oncancel u;
     _onpause := _onpause u |}.

Definition with_steamer (s : Steamer) (u : Upload) : Upload :=
  {| eventQueue := eventQueue u; size := size u;
     contentType := contentType u; steamer := s;
     sessionUri := sessionUri u; state := state u;
     _onprogress := _onprogress u; _onerror := _onerror u;
     _ondone := _ondone u; _oncancel := _oncancel u;
     _onpause := _onpause u |}.

Definition with_sessionUri (uri : option string) (u : Upload) : Upload :=
  {| eventQueue := eventQueue u; size := size u;
     contentType := contentType u; steamer := steamer u;
     sessionUri := uri; state := state u;
     _onprogress := _onprogress u; _onerror := _onerror u;
     _ondone := _ondone u; _oncancel := _oncancel u;
     _onpause := _onpause u |}.

(** Invoke a listener. *)
Definition call (c : Call) (w : World) : World :=
  {| upload := upload w; calls := calls w ++ [c]; puts := puts w;
     pending := pending w |}.

Definition sent (p : Put) (w : World) : World :=
  {| upload := upload w; calls := calls w; puts := puts w ++ [p];
     pending := pending w |}.

Definition await (t : Task) (w : World) : World :=
  {| upload := upload w; calls := calls w; puts := puts w;
     pending := pending w ++ [t] |}.

(** [queue[0] = v] on an array of length at most one keeps it of
    length one; on a longer array only slot 0 changes. *)
Definition set_slot0 {A : Type} (v : A) (queue : list A) : list A :=
  match queue with
  | [] => [v]
  | _ :: rest => v :: rest
  end.

(* ------------------------------------------------------------------ *)
(** *** The setters of [upload.state] *)

Definition set_progress (offset : Offset) (w : World) : World :=
  if negb (truthy offset) || is_resume offset then w
  else
    match _onprogress (upload w) with
    | None =>
        with_upload (with_queue (fun q =>
          {| onprogress := onprogress q ++ [offset]; onerror := onerror q;
             ondone := ondone q; oncancel := oncancel q;
             onpause := onpause q |})) w
    | Some cb =>
        call (OnProgress cb offset)
          (with_upload (with_state (fun s =>
             {| _progress := offset; _error := _error s; _done := _done s;
                _cancel := _cancel s; _pause := _pause s |})) w)
    end.

Definition set_error (error : Error) (w : World) : World :=
  match _onerror (upload w) with
  | None =>
      with_upload (with_queue (fun q =>
        {| onprogress := onprogress q; onerror := onerror q ++ [error];
           ondone := ondone q; oncancel := oncancel q;
           onpause := onpause q |})) w
  | Some cb =>
      call (OnError cb error)
        (with_upload (with_state (fun s =>
           {| _progress := _progress s; _error := Some error;
              _done := _done s; _cancel := _cancel s;
              _pause := _pause s |})) w)
  end.

Definition set_done (done : bool) (w : World) : World :=
  if negb done then w
  else
    let w := with_upload (with_state (fun s =>
               {| _progress := _progress s; _error := _error s;
                  _done := true; _cancel := _cancel s;
                  _pause := _pause s |})) w in
    match _ondone (upload w) with
    | None =>
        with_upload (with_queue (fun q =>
          {| onprogress := onprogress q; onerror := onerror q;
             ondone := set_slot0 true (ondone q); oncancel := oncancel q;
             onpause := onpause q |})) w
    | Some cb => call (OnDone cb None) w
    end.

Definition set_cancel (cancel : bool) (w : World) : World :=
  if negb cancel then w
  else
    let w := with_upload (with_state (fun s =>
               {| _progress := _progress s; _error := _error s;
                  _done := _done s; _cancel := cancel;
                  _pause := _pause s |})) w in
    match _oncancel (upload w) with
    | None =>
        with_upload (with_queue (fun q =>
          {| onprogress := onprogress q; onerror := onerror q;
             ondone := ondone q; oncancel := set_slot0 cancel (oncancel q);
             onpause := onpause q |})) w
    | Some cb => call (OnCancel cb None) w
    end.

Definition set_pause (pause : bool) (w : World) : World :=
  let w := with_upload (with_state (fun s =>
             {| _progress := _progress s; _error := _error s;
                _done := _done s; _cancel := _cancel s;
                _pause := pause |})) w in
  match _onpause (upload w) with
  | None =>
      with_upload (with_queue (fun q =>
        {| onprogress := onprogress q; onerror := onerror q;
           ondone := ondone q; oncancel := oncancel q;
           onpause := set_slot0 pause (onpause q) |})) w
  | Some cb =>
      if negb pause then w
      else call (OnPause cb None) w
  end.

(* ------------------------------------------------------------------ *)
(** *** Listener registration *)

(** [while (eventQueue.length) event(eventQueue.shift())]: returns the
    emptied queue and the log extended with one call per entry. *)
Fixpoint clearEventQueue {A : Type} (eventQueue : list A) (event : A -> Call)
    (log : list Call) : list A * list Call :=
  match eventQueue with
  | [] => ([], log)
  | x :: rest => clearEventQueue rest event (log ++ [event x])
  end.

Inductive Kind : Type := KProgress | KError | KDone | KCancel | KPause.

Definition set_listeners (u : Upload) (q : EventQueue)
    (p e d c s : option Listener) : Upload :=
  {| eventQueue := q; size := size u; contentType := contentType u;
     steamer := steamer u; sessionUri := sessionUri u; state := state u;
     _onprogress := p; _onerror := e; _ondone := d; _oncancel := c;
     _onpause := s |}.

(** [set onprogress(cb)] *)
Definition set_onprogress (cb : Listener) (w : World) : World :=
  let u := upload w in
  let q := eventQueue u in
  let '(rest, log) :=
    clearEventQueue (onprogress q) (OnProgress cb) (calls w) in
  {| upload :=
       set_listeners u
         {| onprogress := rest; onerror := onerror q; ondone := ondone q;
            oncancel := oncancel q; onpause := onpause q |}
         (Some cb) (_onerror u) (_ondone u) (_oncancel u) (_onpause u);
     calls := log; puts := puts w; pending := pending w |}.

(** [set onerror(cb)] *)
Definition set_onerror (cb : Listener) (w : World) : World :=
  let u := upload w in
  let q := eventQueue u in
  let '(rest, log) := clearEventQueue (onerror q) (OnError cb) (calls w) in
  {| upload :=
       set_listeners u
         {| onprogress := onprogress q; onerror := rest; ondone := ondone q;
            oncancel := oncancel q; onpause := onpause q |}
         (_onprogress u) (Some cb) (_ondone u) (_oncancel u) (_onpause u);
     calls := log; puts := puts w; pending := pending w |}.

(** [set ondone(cb)] *)
Definition set_ondone (cb : Listener) (w : World) : World :=
  let u := upload w in
  let q := eventQueue u in
  let '(rest, log) :=
    clearEventQueue (ondone q) (fun v => OnDone cb (Some v)) (calls w) in
  {| upload :=
       set_listeners u
         {| onprogress := onprogress q; onerror := onerror q; ondone := rest;
            oncancel := oncancel q; onpause := onpause q |}
         (_onprogress u) (_onerror u) (Some cb) (_oncancel u) (_onpause u);
     calls := log; puts := puts w; pending := pending w |}.

(** [set oncancel(cb)] *)
Definition set_oncancel (cb : Listener) (w : World) : World :=
  let u := upload w in
  let q := eventQueue u in
  let '(rest, log) :=
    clearEventQueue (oncancel q) (fun v => OnCancel cb (Some v)) (calls w) in
  {| upload :=
       set_listeners u
         {| onprogress := onprogress q; onerror := onerror q;
            ondone := ondone q; oncancel := rest; onpause := onpause q |}
         (_onprogress u) (_onerror u) (_ondone u) (Some cb) (_onpause u);
     calls := log; puts := puts w; pending := pending w |}.

(** [set onpause(cb)] *)
Definition set_onpause (cb : Listener) (w : World) : World :=
  let u := upload w in
  let q := eventQueue u in
  let '(rest, log) :=
    clearEventQueue (onpause q) (fun v => OnPause cb (Some v)) (calls w) in
  {| upload :=
       set_listeners u
         {| onprogress := onprogress q; onerror := onerror q;
            ondone := ondone q; oncancel := oncancel q; onpause := rest |}
         (_onprogress u) (_onerror u) (_ondone u) (_oncancel u) (Some cb);
     calls := log; puts := puts w; pending := pending w |}.

Definition attach (k : Kind) (cb : Listener) (w : World) : World :=
  match k with
  | KProgress => set_onprogress cb w
  | KError => set_onerror cb w
  | KDone => set_ondone cb w
  | KCancel => set_oncancel cb w
  | KPause => set_onpause cb w
  end.

(* ================================================================== *)
(** ** gcs.js: session negotiation and chunk requests *)

(** The callbacks chained on the [fetch] of [getSessionUri]. *)
Definition getSessionUri (settled : Settled SessionResponse)
    : Error + option string :=
  match settled with
  | Rejected => inl ErrType
  | Fulfilled response =>
      if negb (session_status response =? 201)
         && negb (session_status response =? 200)
      then inl ErrSession
      else match session_json response with
           | None => inl ErrSyntax
           | Some data => inr data
           end
  end.

Definition base_headers : list (string * HeaderValue) :=
  [("Access-Control-Allow-Origin", HStr "*")].

(** [uploadChunk] up to its call of [fetch]: the options it builds, or
    the [TypeError] of reading [chunk.size] from [undefined]. *)
Definition uploadChunk (chunk : option Chunk) (contentType range : string)
    : Error + Options :=
  if negb (includes "*" range) then
    match chunk with
    | None => inl ErrType
    | Some c =>
        inr {| method := "put"; mode := "cors";
               headers := base_headers ++
                 [("Content-Length", HNum (chunk_size c));
                  ("Content-Type", HStr contentType);
                  ("Content-Range", HStr range)];
               body := Some (data c) |}
    end
  else
    inr {| method := "put"; mode := "cors"; headers := base_headers;
           body := None |}.

(** The callback [uploadChunk] chains on its [fetch]. *)
Definition uploadChunk_then (response : Response) : Error + Reply :=
  if (status response =? 200) || (status response =? 201) then inr ReplyDone
  else if status response =? 308 then
    match Range response with
    | None => inl ErrType
    | Some rangeHeader =>
        match nth_error (split "-" rangeHeader) 1 with
        | None => inl ErrInvalidRange
        | Some lastByteReceived =>
            if String.eqb lastByteReceived "" then inl ErrInvalidRange
            else inr (ReplyOffset (parseInt lastByteReceived))
        end
    end
  else inr (ReplyOffset RESUME_OFFSET).

(* ================================================================== *)
(** ** gcs.js: the transfer loop *)

(** [offset + k] for a number; anything else is not a number. *)
Definition offset_plus (o : Offset) (k : Z) : Offset :=
  match o with
  | Num n => Num (n + k)
  | _ => NaN
  end.

(** The [range] string of [doUpload]. *)
Definition range_of (offset : Offset) (chunk : option Chunk) (size : Z)
    : Error + string :=
  let range :=
    if truthy offset then
      if is_resume offset then inr "bytes *"
      else match chunk with
           | None => inl ErrType
           | Some c =>
               inr ("bytes " ++ string_of_offset offset ++ "-"
                    ++ string_of_offset (offset_plus offset (chunk_size c - 1)))
           end
    else match chunk with
         | None => inl ErrType
         | Some c => inr ("bytes 0-" ++ string_of_Z (chunk_size c - 1))
         end in
  match range with
  | inl e => inl e
  | inr range => inr (range ++ "/" ++ string_of_Z size)
  end.

(** The first [then] callback of [doUpload]: format the range and hand
    the chunk to [uploadChunk]; the request is now in flight. *)
Definition send (offset : Offset) (chunk : option Chunk) (w : World) : World :=
  let u := upload w in
  match range_of offset chunk (size u) with
  | inl e => await (TThrown e) w
  | inr range =>
      match uploadChunk chunk (contentType u) range with
      | inl e => await (TThrown e) w
      | inr opts =>
          await (TPut offset)
            (sent {| range := range; url := sessionUri u;
                     options := opts |} w)
      end
  end.

(** [doUpload(upload, offset)] up to its first suspension.  With the
    resume marker [next] resolves at once and the request leaves in
    the same turn; otherwise a read is started. *)
Definition doUpload (offset : Offset) (w : World) : World :=
  match next (steamer (upload w)) offset with
  | None => send offset None w
  | Some blob => await (TRead offset blob) w
  end.

(** The [catch] callback of [doUpload]. *)
Definition doUpload_catch (error : Error) (w : World) : World :=
  let w := set_error error w in
  if Status_eqb (currentState (upload w)) INPROGRESS
  then doUpload RESUME_OFFSET w
  else w.

(** The second [then] callback of [doUpload], with the [catch] that
    follows it. *)
Definition doUpload_then (offset : Offset) (response : Reply) (w : World)
    : World :=
  if negb (Status_eqb (currentState (upload w)) INPROGRESS) then w
  else
    match response with
    | ReplyDone => set_done true w
    | ReplyOffset o =>
        if truthy o then doUpload o (set_progress offset w)
        else doUpload_catch ErrUnexpected w
    end.

(** The methods of [Upload.prototype]. *)
Definition cancel (w : World) : World := set_cancel true w.
Definition done (w : World) : World := set_done true w.
Definition pause (w : World) : World := set_pause true w.
Definition resume (w : World) : World :=
  doUpload RESUME_OFFSET (set_pause false w).

(** The body of [run(file)] with the second argument of the [Steamer]
    constructor left open; [run] itself passes none, so that the
    steamer takes [DEFAULT_CHUNK_SIZE].  It throws, or returns the
    upload with the session request in flight. *)
Definition run_chunked (win : Window) (file : option File)
    (chunk_size : option Z) : Error + World :=
  match file with
  | None => inl ErrNoFile
  | Some f =>
      match Steamer_new win (Some f) chunk_size with
      | inl e => inl e
      | inr s =>
          inr {| upload := Upload_new (file_size f) (type f) s;
                 calls := []; puts := []; pending := [TSession] |}
      end
  end.

(** [run(file)] *)
Definition run (win : Window) (file : option File) : Error + World :=
  run_chunked win file None.

(** The callbacks [run] chains on [getSessionUri]. *)
Definition run_then (settled : Settled SessionResponse) (w : World) : World :=
  match getSessionUri settled with
  | inr uri => doUpload Undefined (with_upload (with_sessionUri uri) w)
  | inl error => set_error error w
  end.

(* ================================================================== *)
(** ** The environment: settling what is in flight, calling the API *)

Inductive Event : Type :=
| SessionSettled (i : nat) (settled : Settled SessionResponse)
| LoadEnd (i : nat)                    (* the read succeeded *)
| ReadError (i : nat) (loaded : Z)     (* the read failed *)
| PutSettled (i : nat) (settled : Settled Response)
| Caught (i : nat)                     (* a thrown error reaches catch *)
| CallCancel
| CallDone
| CallPause
| CallResume
| Attach (k : Kind) (cb : Listener).

Definition drop (i : nat) (w : World) : World :=
  {| upload := upload w; calls := calls w; puts := puts w;
     pending := firstn i (pending w) ++ skipn (S i) (pending w) |}.

(** The settlement of a chunk request, through the callback of
    [uploadChunk] and then those of [doUpload]. *)
Definition put_settled (offset : Offset) (settled : Settled Response)
    (w : World) : World :=
  match settled with
  | Rejected => doUpload_catch ErrType w
  | Fulfilled response =>
      match uploadChunk_then response with
      | inl e => doUpload_catch e w
      | inr reply => doUpload_then offset reply w
      end
  end.

(** The end of a read: [onloadend], then the first callback of
    [doUpload]. *)
Definition load_end (offset : Offset) (blob : list byte) (w : World) : World :=
  let '(s, chunk) := onloadend (steamer (upload w)) blob in
  send offset (Some chunk) (with_upload (with_steamer s) w).

(** A failed read: the promise is rejected, and [onloadend] still adds
    [event.loaded] to the cursor. *)
Definition read_error (loaded : Z) (w : World) : World :=
  let s := steamer (upload w) in
  doUpload_catch ErrRead
    (with_upload (with_steamer
       {| file := file s; chunkSize := chunkSize s;
          progress := progress s + loaded |}) w).

(** One turn of the event loop.  An event that names no pending task
    of its kind changes nothing. *)
Definition step (ev : Event) (w : World) : World :=
  match ev with
  | SessionSettled i settled =>
      match nth_error (pending w) i with
      | Some TSession => run_then settled (drop i w)
      | _ => w
      end
  | LoadEnd i =>
      match nth_error (pending w) i with
      | Some (TRead offset blob) => load_end offset blob (drop i w)
      | _ => w
      end
  | ReadError i loaded =>
      match nth_error (pending w) i with
      | Some (TRead _ _) => read_error loaded (drop i w)
      | _ => w
      end
  | PutSettled i settled =>
      match nth_error (pending w) i with
      | Some (TPut offset) => put_settled offset settled (drop i w)
      | _ => w
      end
  | Caught i =>
      match nth_error (pending w) i with
      | Some (TThrown e) => doUpload_catch e (drop i w)
      | _ => w
      end
  | CallCancel => cancel w
  | CallDone => done w
  | CallPause => pause w
  | CallResume => resume w
  | Attach k cb => attach k cb w
  end.

Definition steps (evs : list Event) (w : World) : World :=
  fold_left (fun w ev => step ev w) evs w.

(** A server given by the list of its answers to the chunk requests,
    in order.  Reads succeed; each answer settles the oldest task. *)
Definition finish_read (w : World) : World :=
  match pending w with
  | TRead _ _ :: _ => step (LoadEnd 0) w
  | _ => w
  end.

Fixpoint serve (answers : list (Settled Response)) (w : World) : World :=
  match answers with
  | [] => finish_read w
  | a :: rest => serve rest (step (PutSettled 0 a) (finish_read w))
  end.

(** The listener invocations of one kind, as the arguments received. *)
Definition progress_calls (w : World) : list Offset :=
  flat_map (fun c => match c with OnProgress _ o => [o] | _ => [] end)
           (calls w).

Definition error_calls (w : World) : list Error :=
  flat_map (fun c => match c with OnError _ e => [e] | _ => [] end)
           (calls w).

(* ================================================================== *)
(** ** The vocabulary of the properties

    Projections of the world, example inputs and the shapes of the
    requests and answers that the statements below speak of. *)

(** From here on [++] is the concatenation of lists. *)
Open Scope list_scope.

(** *** Projections of the world *)

Definition listener (k : Kind) (u : Upload) : option Listener :=
  match k with
  | KProgress => _onprogress u
  | KError => _onerror u
  | KDone => _ondone u
  | KCancel => _oncancel u
  | KPause => _onpause u
  end.

(** The calls that draining the queue of a kind into [cb] makes. *)
Definition queued_calls (k : Kind) (cb : Listener) (u : Upload) : list Call :=
  let q := eventQueue u in
  match k with
  | KProgress => map (OnProgress cb) (onprogress q)
  | KError => map (OnError cb) (onerror q)
  | KDone => map (fun v => OnDone cb (Some v)) (ondone q)
  | KCancel => map (fun v => OnCancel cb (Some v)) (oncancel q)
  | KPause => map (fun v => OnPause cb (Some v)) (onpause q)
  end.

Definition flags (u : Upload) : bool * bool * bool :=
  (_done (state u), _cancel (state u), _pause (state u)).

Definition single_slot (u : Upload) : Prop :=
  (List.length (ondone (eventQueue u)) <= 1)%nat /\
  (List.length (oncancel (eventQueue u)) <= 1)%nat /\
  (List.length (onpause (eventQueue u)) <= 1)%nat.

(** The setters write the state and the queues and call listeners;
    they send nothing, start nothing, and keep the rest of the upload. *)
Definition same_transfer (w w' : World) : Prop :=
  puts w' = puts w /\ pending w' = pending w /\
  size (upload w') = size (upload w) /\
  contentType (upload w') = contentType (upload w) /\
  steamer (upload w') = steamer (upload w) /\
  sessionUri (upload w') = sessionUri (upload w).

Definition same_listeners (w w' : World) : Prop :=
  forall k, listener k (upload w') = listener k (upload w).

(** The error signal of [upload.error = e]: the listener is called, or
    the error is queued for it. *)
Definition error_signalled (e : Error) (w w' : World) : Prop :=
  match _onerror (upload w) with
  | Some cb =>
      calls w' = calls w ++ [OnError cb e] /\
      eventQueue (upload w') = eventQueue (upload w)
  | None =>
      calls w' = calls w /\
      onerror (eventQueue (upload w'))
        = onerror (eventQueue (upload w)) ++ [e] /\
      onprogress (eventQueue (upload w'))
        = onprogress (eventQueue (upload w))
  end.



(** *** Requests, chunks and answers *)

(** [len] bytes of the file from byte [start] on (fewer at its end). *)
Definition window (f : File) (start len : Z) : list byte :=
  firstn (Z.to_nat len) (skipn (Z.to_nat start) (content f)).

(** [bytes <start>-<stop>/<total>] *)
Definition concrete_range (start stop total : Z) : string :=
  ("bytes " ++ string_of_Z start ++ "-" ++ string_of_Z stop ++ "/"
   ++ string_of_Z total)%string.

(** The first byte named in the range of the request. *)
Definition range_start (offset : Offset) : Z :=
  match offset with
  | Num n => n
  | _ => 0
  end.

(** The request sent for the chunk [blob] read for [offset]. *)
Definition chunk_put (u : Upload) (offset : Offset) (blob : list byte) : Put :=
  let len := Z.of_nat (List.length blob) in
  let r := concrete_range (range_start offset)
             (range_start offset + (len - 1)) (size u) in
  {| range := r;
     url := sessionUri u;
     options :=
       {| method := "put"; mode := "cors";
          headers := base_headers ++
            [("Content-Length", HNum len);
             ("Content-Type", HStr (contentType u));
             ("Content-Range", HStr r)];
          body := Some blob |} |}.

(** The probe: what [uploadChunk] sends for the range [bytes */<total>]. *)
Definition probe (u : Upload) : Put :=
  {| range := ("bytes */" ++ string_of_Z (size u))%string;
     url := sessionUri u;
     options := {| method := "put"; mode := "cors";
                   headers := base_headers; body := None |} |}.

Definition answer (code : Z) (rangeHeader : option string) : Settled Response :=
  Fulfilled {| status := code; Range := rangeHeader |}.

(** 308 with [Range: bytes 0-<n>]. *)
Definition ack (n : Z) : Settled Response :=
  answer 308 (Some ("bytes 0-" ++ string_of_Z n)%string).

(** Any status other than 200, 201 and 308 is a soft failure. *)
Definition soft (code : Z) : Prop := code <> 200 /\ code <> 201 /\ code <> 308.

(** The error, if any, that the settlement of a chunk request throws
    into the [catch] of [doUpload] while the upload is in progress: a
    network failure, a 308 answer with no usable [Range] header, or an
    acknowledged offset that is zero or not a number. *)
Definition thrown (settled : Settled Response) : option Error :=
  match settled with
  | Rejected => Some ErrType
  | Fulfilled response =>
      match uploadChunk_then response with
      | inl e => Some e
      | inr ReplyDone => None
      | inr (ReplyOffset o) => if truthy o then None else Some ErrUnexpected
      end
  end.

Definition session_ok : Settled SessionResponse :=
  Fulfilled {| session_status := 200;
               session_json := Some (Some "https://storage.test/session") |}.

(** The offsets [doUpload] is called with when it reads a chunk:
    none on the first call, a number other than zero afterwards. *)
Definition reads (offset : Offset) : Prop :=
  offset = Undefined \/ exists n, offset = Num n /\ n <> 0.


(** The value of a run of decimal digits read after [acc]. *)
Fixpoint uint_value (d : Decimal.uint) (acc : Z) : Z :=
  match d with
  | Nil => acc
  | D0 d => uint_value d (acc * 10 + 0)
  | D1 d => uint_value d (acc * 10 + 1)
  | D2 d => uint_value d (acc * 10 + 2)
  | D3 d => uint_value d (acc * 10 + 3)
  | D4 d => uint_value d (acc * 10 + 4)
  | D5 d => uint_value d (acc * 10 + 5)
  | D6 d => uint_value d (acc * 10 + 6)
  | D7 d => uint_value d (acc * 10 + 7)
  | D8 d => uint_value d (acc * 10 + 8)
  | D9 d => uint_value d (acc * 10 + 9)
  end.

(** *** Example inputs *)

Definition window_ok : Window :=
  {| window_File := true; window_FileReader := true |}.

(** A 26-byte file whose bytes are all different. *)
Definition file26 : File :=
  {| name := "a.bin"; type := "application/octet-stream";
     content := [x00; x01; x02; x03; x04; x05; x06; x07; x08; x09; x0a;
                 x0b; x0c; x0d; x0e; x0f; x10; x11; x12; x13; x14; x15;
                 x16; x17; x18; x19] |}.

(** The upload of [file26] in chunks of 16 bytes, as [run] returns it. *)
Definition world26 : World :=
  {| upload := Upload_new 26 "application/octet-stream"
                 {| file := file26; chunkSize := 16; progress := 0 |};
     calls := []; puts := []; pending := [TSession] |}.

(** What [run] returns for [file26]: the chunk size is the default. *)
Definition started26 : World :=
  {| upload := Upload_new 26 "application/octet-stream"
                 {| file := file26; chunkSize := DEFAULT_CHUNK_SIZE;
                    progress := 0 |};
     calls := []; puts := []; pending := [TSession] |}.

(** The upload of [file26] in chunks of 16 bytes, the session
    negotiated and the listener 1 attached for progress. *)
Definition loop26 : World :=
  step (SessionSettled 0 session_ok) (attach KProgress 1%nat world26).

(** The upload of [file26], done after one request, with listener 1
    attached for progress and for cancel. *)
Definition done26 : World :=
  attach KCancel 1%nat (serve [answer 200 None] loop26).

(** *** Reading a file chunk after chunk *)

(** [k] calls of [next()] with no offset, each read ending before the
    next call: the chunks resolved, in order, and the steamer left. *)
Fixpoint read_chunks (k : nat) (s : Steamer) : list Chunk * Steamer :=
  match k with
  | O => ([], s)
  | S k' =>
      match next s Undefined with
      | None => ([], s)
      | Some blob =>
          let '(s1, chunk) := onloadend s blob in
          let '(rest, s2) := read_chunks k' s1 in
          (chunk :: rest, s2)
      end
  end.

(** The data of the chunks, end to end. *)
Definition chunks_data (cs : list Chunk) : list byte := flat_map data cs.

(** *** More example inputs *)

(** A file with no byte. *)
Definition file0 : File :=
  {| name := "empty.bin"; type := "text/plain"; content := [] |}.

(** The upload of [file26] in chunks of 16 bytes with the listeners 1,
    2 and 3 attached for progress, error and done, the session
    negotiated and the first request in flight. *)
Definition sending26 : World :=
  finish_read
    (step (SessionSettled 0 session_ok)
       (attach KDone 3%nat
          (attach KError 2%nat (attach KProgress 1%nat world26)))).

(** *** The shape of the requests *)

(** A request as [uploadChunk] builds it: a PUT in CORS mode that is
    either a probe (a star in the range, no body, the CORS header
    only) or carries a body, with its length as Content-Length and the
    range as Content-Range. *)
Definition well_formed (p : Put) : Prop :=
  method (options p) = "put" /\ mode (options p) = "cors" /\
  ((includes "*" (range p) = true /\ body (options p) = None /\
    headers (options p) = base_headers) \/
   (includes "*" (range p) = false /\
    exists blob ct,
      body (options p) = Some blob /\
      headers (options p)
        = base_headers ++
          [("Content-Length", HNum (Z.of_nat (List.length blob)));
           ("Content-Type", HStr ct);
           ("Content-Range", HStr (range p))])).

(** Nothing sent, nothing started, the session as it was. *)
Definition same_requests (w w' : World) : Prop :=
  puts w' = puts w /\ pending w' = pending w /\
  sessionUri (upload w') = sessionUri (upload w).

(** At most one operation started, and whatever was sent is well
    formed and went to the session URI. *)
Definition grows (w w' : World) : Prop :=
  sessionUri (upload w') = sessionUri (upload w) /\
  exists new ts,
    puts w' = puts w ++ new /\ pending w' = pending w ++ ts /\
    (List.length ts <= 1)%nat /\ ~ In TSession ts /\
    Forall (fun p => well_formed p /\ url p = sessionUri (upload w)) new.

(** The loop is sequential: at most one operation is in flight,
    nothing has been sent while the session is being negotiated, and
    every request went to the session URI. *)
Definition sequential (w : World) : Prop :=
  (List.length (pending w) <= 1)%nat /\
  (In TSession (pending w) -> puts w = []) /\
  Forall (fun p => url p = sessionUri (upload w)) (puts w).

(** *** What the caller can observe *)

(** The part of the world that the setters read and write: the queues,
    the state, the listeners and the calls made. *)
Definition obs (w : World)
    : EventQueue * State
      * (option Listener * option Listener * option Listener
         * option Listener * option Listener)
      * list Call :=
  (eventQueue (upload w), state (upload w),
   (_onprogress (upload w), _onerror (upload w), _ondone (upload w),
    _oncancel (upload w), _onpause (upload w)),
   calls w).

(** The done listener invocations, as the arguments received. *)
Definition done_calls (w : World) : list (option bool) :=
  flat_map (fun c => match c with OnDone _ a => [a] | _ => [] end)
           (calls w).

(** An offset that [upload.progress = offset] signals: a number other
    than zero. *)
Definition reportable (o : Offset) : Prop := exists n, o = Num n /\ n <> 0.

(** Only such offsets have been signalled or are queued. *)
Definition progress_sound (w : World) : Prop :=
  Forall reportable (progress_calls w) /\
  Forall reportable (onprogress (eventQueue (upload w))).

(** The done signal has been emitted at most once, and exactly when
    the done flag is set: it is either delivered or still queued. *)
Definition done_once (w : World) : Prop :=
  (_done (state (upload w)) = false /\ done_calls w = [] /\
   ondone (eventQueue (upload w)) = []) \/
  (_done (state (upload w)) = true /\
   (List.length (done_calls w)
    + List.length (ondone (eventQueue (upload w))) = 1)%nat).

(** *** A server that stores what it receives *)






(** *** Tactics *)

(** Case analysis on whatever the goal branches on. *)
Ltac split_match :=
  repeat match goal with
         | |- context [match ?x with _ => _ end] => destruct x eqn:?
         | |- context [if ?b then _ else _] => destruct b eqn:?
         end.

(** Evaluate the tests made on a character that is known. *)
Ltac eval_chars :=
  repeat match goal with
         | |- context [digit_value ?r (Ascii ?a ?b ?c ?d ?e ?f ?g ?h)] =>
             let v := eval vm_compute in
                        (digit_value r (Ascii a b c d e f g h)) in
             change (digit_value r (Ascii a b c d e f g h)) with v
         | |- context [is_white (Ascii ?a ?b ?c ?d ?e ?f ?g ?h)] =>
             let v := eval vm_compute in
                        (is_white (Ascii a b c d e f g h)) in
             change (is_white (Ascii a b c d e f g h)) with v
         end;
  cbv beta iota.

(** Two worlds with the same observable part go through a setter in
    the same way. *)
Ltac obs_congruence :=
  let H := fresh in
  intros H;
  match goal with
  | |- obs (_ _ ?w1) = obs (_ _ ?w) =>
      destruct w1 as [[? ? ? ? ? ? ? ? ? ? ?] ? ? ?];
      destruct w as [[? ? ? ? ? ? ? ? ? ? ?] ? ? ?]
  end;
  unfold obs in H; cbn in H; injection H; intros; subst;
  unfold obs, set_progress, set_error, set_done, set_cancel, set_pause;
  cbn [upload with_upload with_state with_queue call calls eventQueue state
       _onprogress _onerror _ondone _oncancel _onpause];
  split_match; reflexivity.

(* ================================================================== *)
(** ** Event queues and listeners *)

Lemma clearEventQueue_spec {A : Type} (q : list A) (event : A -> Call) log :
  clearEventQueue q event log = ([], log ++ map event q).
Proof.
  revert log; induction q as [|x q IH]; intros log; cbn.
  - now rewrite app_nil_r.
  - rewrite IH, <- app_assoc. reflexivity.
Qed.

Lemma attach_calls k cb w :
  calls (attach k cb w) = calls w ++ queued_calls k cb (upload w).
Proof.
  destruct k; cbn; unfold set_onprogress, set_onerror, set_ondone,
    set_oncancel, set_onpause; rewrite clearEventQueue_spec; reflexivity.
Qed.

Lemma attach_listener k cb w : listener k (upload (attach k cb w)) = Some cb.
Proof.
  destruct k; cbn; unfold set_onprogress, set_onerror, set_ondone,
    set_oncancel, set_onpause; rewrite clearEventQueue_spec; reflexivity.
Qed.

Lemma attach_empties k cb cb' w :
  queued_calls k cb' (upload (attach k cb w)) = [].
Proof.
  destruct k; cbn; unfold set_onprogress, set_onerror, set_ondone,
    set_oncancel, set_onpause; rewrite clearEventQueue_spec; reflexivity.
Qed.

Lemma attach_other_queues k cb w :
  let q := eventQueue (upload w) in
  let q' := eventQueue (upload (attach k cb w)) in
  (k <> KProgress -> onprogress q' = onprogress q) /\
  (k <> KError -> onerror q' = onerror q) /\
  (k <> KDone -> ondone q' = ondone q) /\
  (k <> KCancel -> oncancel q' = oncancel q) /\
  (k <> KPause -> onpause q' = onpause q).
Proof.
  destruct k; cbn; unfold set_onprogress, set_onerror, set_ondone,
    set_oncancel, set_onpause; rewrite clearEventQueue_spec; cbn;
    repeat split; intros; congruence.
Qed.



(** Progress events emitted while no listener is attached are queued
    in arrival order. *)
Lemma set_progress_queued n w :
  n <> 0 -> _onprogress (upload w) = None ->
  onprogress (eventQueue (upload (set_progress (Num n) w)))
    = onprogress (eventQueue (upload w)) ++ [Num n] /\
  calls (set_progress (Num n) w) = calls w /\
  _onprogress (upload (set_progress (Num n) w)) = None.
Proof.
  intros Hn Hl. unfold set_progress; cbn.
  destruct (Z.eqb_spec n 0); [contradiction|]; cbn.
  rewrite Hl. cbn. auto.
Qed.



(* ================================================================== *)
(** ** What each operation leaves alone *)

Lemma send_upload o c w : upload (send o c w) = upload w.
Proof. unfold send. split_match; reflexivity. Qed.

Lemma send_calls o c w : calls (send o c w) = calls w.
Proof. unfold send. split_match; reflexivity. Qed.

Lemma doUpload_upload o w : upload (doUpload o w) = upload w.
Proof. unfold doUpload. split_match; [reflexivity | apply send_upload]. Qed.

Lemma doUpload_calls o w : calls (doUpload o w) = calls w.
Proof. unfold doUpload. split_match; [reflexivity | apply send_calls]. Qed.

(** [doUpload(upload, RESUME_OFFSET)] reads nothing and sends the probe
    in the same turn. *)
Lemma doUpload_resume w :
  doUpload RESUME_OFFSET w = await (TPut Star) (sent (probe (upload w)) w).
Proof. reflexivity. Qed.

Lemma set_progress_frame o w :
  same_transfer w (set_progress o w) /\ same_listeners w (set_progress o w).
Proof.
  unfold same_transfer, same_listeners, set_progress.
  split_match; cbn; repeat split; try reflexivity; intros []; reflexivity.
Qed.

Lemma set_error_frame e w :
  same_transfer w (set_error e w) /\ same_listeners w (set_error e w).
Proof.
  unfold same_transfer, same_listeners, set_error.
  split_match; cbn; repeat split; try reflexivity; intros []; reflexivity.
Qed.

Lemma set_done_frame b w :
  same_transfer w (set_done b w) /\ same_listeners w (set_done b w).
Proof.
  unfold same_transfer, same_listeners, set_done.
  split_match; cbn; repeat split; try reflexivity; intros []; reflexivity.
Qed.

Lemma set_cancel_frame b w :
  same_transfer w (set_cancel b w) /\ same_listeners w (set_cancel b w).
Proof.
  unfold same_transfer, same_listeners, set_cancel.
  split_match; cbn; repeat split; try reflexivity; intros []; reflexivity.
Qed.

Lemma set_pause_frame b w :
  same_transfer w (set_pause b w) /\ same_listeners w (set_pause b w).
Proof.
  unfold same_transfer, same_listeners, set_pause.
  split_match; cbn; repeat split; try reflexivity; intros []; reflexivity.
Qed.

Lemma attach_frame k cb w :
  same_transfer w (attach k cb w) /\ state (upload (attach k cb w)) = state (upload w).
Proof.
  unfold same_transfer.
  destruct k; cbn; unfold set_onprogress, set_onerror, set_ondone,
    set_oncancel, set_onpause; rewrite clearEventQueue_spec; cbn;
    repeat split; reflexivity.
Qed.

(* ================================================================== *)
(** ** The one-slot buffers of done, cancel and pause *)

Lemma set_slot0_single {A : Type} (v : A) (q : list A) :
  (List.length q <= 1)%nat -> set_slot0 v q = [v].
Proof. destruct q as [|x [|y q]]; cbn; intros; auto; lia. Qed.

Lemma set_progress_slots o w :
  single_slot (upload w) -> single_slot (upload (set_progress o w)).
Proof. unfold set_progress, single_slot. split_match; cbn; auto. Qed.

Lemma set_error_slots e w :
  single_slot (upload w) -> single_slot (upload (set_error e w)).
Proof. unfold set_error, single_slot. split_match; cbn; auto. Qed.

Lemma set_done_slots b w :
  single_slot (upload w) -> single_slot (upload (set_done b w)).
Proof.
  unfold set_done, single_slot. split_match; cbn; auto.
  intros (Hd & Hc & Hp). rewrite (set_slot0_single _ _ Hd). cbn. auto.
Qed.

Lemma set_cancel_slots b w :
  single_slot (upload w) -> single_slot (upload (set_cancel b w)).
Proof.
  unfold set_cancel, single_slot. split_match; cbn; auto.
  intros (Hd & Hc & Hp). rewrite (set_slot0_single _ _ Hc). cbn. auto.
Qed.

Lemma set_pause_slots b w :
  single_slot (upload w) -> single_slot (upload (set_pause b w)).
Proof.
  unfold set_pause, single_slot. split_match; cbn; auto.
  intros (Hd & Hc & Hp). rewrite (set_slot0_single _ _ Hp). cbn. auto.
Qed.

Lemma attach_slots k cb w :
  single_slot (upload w) -> single_slot (upload (attach k cb w)).
Proof.
  unfold single_slot.
  destruct k; cbn; unfold set_onprogress, set_onerror, set_ondone,
    set_oncancel, set_onpause; rewrite clearEventQueue_spec; cbn;
    intros (Hd & Hc & Hp); auto.
Qed.

Lemma doUpload_catch_slots e w :
  single_slot (upload w) -> single_slot (upload (doUpload_catch e w)).
Proof.
  intros H. unfold doUpload_catch. split_match.
  - rewrite doUpload_upload. now apply set_error_slots.
  - now apply set_error_slots.
Qed.

Lemma doUpload_then_slots o r w :
  single_slot (upload w) -> single_slot (upload (doUpload_then o r w)).
Proof.
  intros H. unfold doUpload_then. split_match; auto.
  - now apply set_done_slots.
  - rewrite doUpload_upload. now apply set_progress_slots.
  - now apply doUpload_catch_slots.
Qed.

Lemma step_slots ev w :
  single_slot (upload w) -> single_slot (upload (step ev w)).
Proof.
  intros H. destruct ev; cbn [step]; split_match; auto.
  - unfold run_then. split_match.
    + apply set_error_slots. exact H.
    + rewrite doUpload_upload. exact H.
  - unfold load_end. split_match. rewrite send_upload. exact H.
  - unfold read_error. apply doUpload_catch_slots. exact H.
  - unfold put_settled. split_match.
    + apply doUpload_catch_slots. exact H.
    + apply doUpload_then_slots. exact H.
    + apply doUpload_catch_slots. exact H.
  - apply doUpload_catch_slots. exact H.
  - now apply set_cancel_slots.
  - now apply set_done_slots.
  - now apply set_pause_slots.
  - unfold resume. rewrite doUpload_upload. now apply set_pause_slots.
  - now apply attach_slots.
Qed.

Lemma steps_slots evs w :
  single_slot (upload w) -> single_slot (upload (steps evs w)).
Proof.
  revert w; induction evs as [|ev evs IH]; intros w H; [exact H|].
  change (steps (ev :: evs) w) with (steps evs (step ev w)).
  apply IH, step_slots, H.
Qed.

Lemma run_slots win f cs w :
  run_chunked win f cs = inr w -> single_slot (upload w).
Proof.
  unfold run_chunked. split_match; try discriminate.
  intros [= <-]. cbn. unfold single_slot; cbn. auto.
Qed.

(** C10. Whatever has happened to an upload returned by [run], its
    done, cancel and pause queues hold at most one entry: an emission
    with no listener writes slot 0 (for pause the flag last written,
    [false] after [resume()]), and attaching a listener of one of these
    kinds calls it at most once.  The progress and error queues grow
    by one entry with each emission. *)
Theorem done_cancel_pause_buffer_one_entry :
  forall (win : Window) (f : option File) (w : World) (evs : list Event),
    run win f = inr w ->
    let w' := steps evs w in
    let q := eventQueue (upload w') in
    single_slot (upload w') /\
    (forall k cb, k = KDone \/ k = KCancel \/ k = KPause ->
       calls (attach k cb w') = calls w' ++ queued_calls k cb (upload w') /\
       (List.length (queued_calls k cb (upload w')) <= 1)%nat) /\
    (_ondone (upload w') = None ->
       ondone (eventQueue (upload (done w'))) = [true]) /\
    (_oncancel (upload w') = None ->
       oncancel (eventQueue (upload (cancel w'))) = [true]) /\
    (_onpause (upload w') = None ->
       onpause (eventQueue (upload (pause w'))) = [true] /\
       onpause (eventQueue (upload (resume w'))) = [false] /\
       onpause (eventQueue (upload (resume (pause w')))) = [false]) /\
    (_onerror (upload w') = None -> forall e,
       onerror (eventQueue (upload (set_error e w'))) = onerror q ++ [e]) /\
    (_onprogress (upload w') = None -> forall n, n <> 0 ->
       onprogress (eventQueue (upload (set_progress (Num n) w')))
         = onprogress q ++ [Num n]).
Proof.
  intros win f w evs Hrun w' q.
  assert (Hs : single_slot (upload w'))
    by (apply steps_slots; eapply run_slots; exact Hrun).
  destruct Hs as (Hd & Hc & Hp).
  split; [unfold single_slot; auto|].
  split.
  { intros k cb Hk. split; [apply attach_calls|].
    destruct Hk as [-> | [-> | ->]]; cbn; now rewrite length_map. }
  split.
  { intros Hl. unfold done, set_done; cbn. rewrite Hl; cbn.
    now apply set_slot0_single. }
  split.
  { intros Hl. unfold cancel, set_cancel; cbn. rewrite Hl; cbn.
    now apply set_slot0_single. }
  split.
  { intros Hl.
    assert (P : forall b,
      onpause (eventQueue (upload (set_pause b w'))) = [b] /\
      _onpause (upload (set_pause b w')) = None).
    { intros b. unfold set_pause; cbn. rewrite Hl; cbn.
      split; [now apply set_slot0_single | exact Hl]. }
    split; [apply P|]. unfold resume. rewrite !doUpload_upload.
    split; [apply P|].
    unfold pause. destruct (P true) as (Q & L).
    unfold set_pause at 1; cbn. rewrite L; cbn. now rewrite Q. }
  split.
  { intros Hl e. unfold set_error. rewrite Hl. reflexivity. }
  intros Hl n Hn. now apply set_progress_queued.
Qed.

Lemma done_cancel_pause_buffer_one_entry_witness :
  run window_ok (Some file26) = inr started26 /\
  let w' := steps [CallPause; CallPause; CallResume; CallPause] started26 in
  calls (attach KPause 1%nat w') = [OnPause 1%nat (Some true)].
Proof.
  split; [reflexivity|].
  cbv zeta.
  pose proof (done_cancel_pause_buffer_one_entry window_ok (Some file26)
                started26 [CallPause; CallPause; CallResume; CallPause]
                eq_refl)
    as (_ & H & _).
  destruct (H KPause 1%nat (or_intror (or_intror eq_refl))) as (E & _).
  rewrite E. reflexivity.
Defined.

(* ================================================================== *)
(** ** Pausing twice *)

(** C6 (what the code does). With a pause listener attached, each call
    of [pause()] calls the listener: the setter looks at the value
    written, never at the flag it replaces, so that pausing an upload
    that is already paused signals a second time. *)
Theorem pause_while_paused_calls_listener_again :
  forall (cb : Listener) (w : World),
    let w1 := pause (attach KPause cb w) in
    let w2 := pause w1 in
    currentState (upload w1) = currentState (upload w2) /\
    _pause (state (upload w1)) = true /\
    calls w1 = calls (attach KPause cb w) ++ [OnPause cb None] /\
    calls w2 = calls w1 ++ [OnPause cb None].
Proof.
  intros cb w w1 w2. subst w1 w2.
  pose proof (attach_listener KPause cb w) as Hl. cbn [listener] in Hl.
  assert (P : forall v, _onpause (upload v) = Some cb ->
            calls (pause v) = calls v ++ [OnPause cb None] /\
            _onpause (upload (pause v)) = Some cb /\
            _pause (state (upload (pause v))) = true /\
            _done (state (upload (pause v))) = _done (state (upload v)) /\
            _cancel (state (upload (pause v))) = _cancel (state (upload v))).
  { intros v Hv. unfold pause, set_pause; cbn. rewrite Hv; cbn. auto. }
  destruct (P _ Hl) as (C1 & L1 & P1 & D1 & X1).
  destruct (P _ L1) as (C2 & L2 & P2 & D2 & X2).
  repeat split; auto.
  unfold currentState. now rewrite D2, X2, P1, P2.
Qed.

(* ================================================================== *)
(** ** The chunk source *)

Lemma window_length f start len :
  0 <= start -> 0 <= len <= file_size f - start ->
  Z.of_nat (List.length (window f start len)) = len.
Proof.
  unfold window, file_size. intros Hs Hl.
  rewrite length_firstn, length_skipn. lia.
Qed.

(** Reading at a starting byte that is not negative. *)
Lemma slice_window f start cs :
  0 <= start -> 0 <= cs ->
  slice f start (if start + cs <=? file_size f then start + cs
                 else file_size f)
  = window f start (Z.min cs (file_size f - start)).
Proof.
  intros Hs Hc. unfold slice, window, clamp.
  assert (Hsz : 0 <= file_size f) by (unfold file_size; lia).
  destruct (Z.leb_spec (start + cs) (file_size f)) as [Hle|Hgt].
  - destruct (Z.ltb_spec start 0); [lia|].
    destruct (Z.ltb_spec (start + cs) 0); [lia|].
    replace (Z.min start (file_size f)) with start by lia.
    f_equal. lia.
  - destruct (Z.ltb_spec start 0); [lia|].
    destruct (Z.ltb_spec (file_size f) 0); [lia|].
    destruct (Z.le_gt_cases start (file_size f)) as [Hin|Hout].
    + replace (Z.min start (file_size f)) with start by lia.
      f_equal. lia.
    + replace (Z.min start (file_size f)) with (file_size f) by lia.
      rewrite !skipn_all2 by (unfold file_size in *; lia).
      now rewrite !firstn_nil.
Qed.




(* ================================================================== *)
(** ** Starting an upload *)






(* ================================================================== *)
(** ** Pause and resume *)

Lemma doUpload_catch_size e w :
  size (upload (doUpload_catch e w)) = size (upload w).
Proof.
  destruct (set_error_frame e w) as ((_ & _ & E & _) & _).
  unfold doUpload_catch. split_match; now rewrite ?doUpload_upload.
Qed.

Lemma doUpload_then_size o r w :
  size (upload (doUpload_then o r w)) = size (upload w).
Proof.
  unfold doUpload_then. split_match; auto.
  - now destruct (set_done_frame true w) as ((_ & _ & E & _) & _).
  - rewrite doUpload_upload.
    now destruct (set_progress_frame o w) as ((_ & _ & E & _) & _).
  - apply doUpload_catch_size.
Qed.

(** The size of the upload never changes. *)
Lemma step_size ev w : size (upload (step ev w)) = size (upload w).
Proof.
  destruct ev; cbn [step]; split_match; auto.
  - unfold run_then. split_match.
    + now destruct (set_error_frame e (drop i w)) as ((_ & _ & E & _) & _).
    + now rewrite doUpload_upload.
  - unfold load_end. split_match. now rewrite send_upload.
  - unfold read_error. now rewrite doUpload_catch_size.
  - unfold put_settled. split_match.
    + now rewrite doUpload_catch_size.
    + now rewrite doUpload_then_size.
    + now rewrite doUpload_catch_size.
  - now rewrite doUpload_catch_size.
  - now destruct (set_cancel_frame true w) as ((_ & _ & E & _) & _).
  - now destruct (set_done_frame true w) as ((_ & _ & E & _) & _).
  - now destruct (set_pause_frame true w) as ((_ & _ & E & _) & _).
  - unfold resume. rewrite doUpload_upload.
    now destruct (set_pause_frame false w) as ((_ & _ & E & _) & _).
  - now destruct (attach_frame k cb w) as ((_ & _ & E & _) & _).
Qed.

Lemma steps_size evs w : size (upload (steps evs w)) = size (upload w).
Proof.
  revert w; induction evs as [|ev evs IH]; intros w; [reflexivity|].
  change (steps (ev :: evs) w) with (steps evs (step ev w)).
  now rewrite IH, step_size.
Qed.

(** C5. Whatever happens between [pause()] and [resume()], the request
    that [resume()] sends, in the turn in which it is called and so
    before any other, is the probe: its range is [bytes */<total>], it
    has no body, and its only header is the CORS one: no
    Content-Length, no Content-Type, no Content-Range, hence no
    concrete range starting at the last offset progressed. *)
Theorem resume_after_pause_sends_probe :
  forall (w : World) (evs : list Event),
    let w1 := steps evs (pause w) in
    let w2 := resume w1 in
    puts w2 = puts w1 ++ [probe (upload w1)] /\
    pending w2 = pending w1 ++ [TPut RESUME_OFFSET] /\
    range (probe (upload w1))
      = ("bytes */" ++ string_of_Z (size (upload w)))%string /\
    includes "*" (range (probe (upload w1))) = true /\
    body (options (probe (upload w1))) = None /\
    headers (options (probe (upload w1)))
      = [("Access-Control-Allow-Origin", HStr "*")] /\
    _pause (state (upload w2)) = false.
Proof.
  intros w evs w1 w2. subst w2.
  destruct (set_pause_frame false w1) as ((Ep & Eq & Es & _ & _ & Eu) & _).
  assert (Eprobe : probe (upload (set_pause false w1)) = probe (upload w1))
    by (unfold probe; now rewrite Es, Eu).
  unfold resume. rewrite doUpload_resume. cbn [puts pending await sent].
  rewrite Ep, Eq, Eprobe.
  repeat split.
  - unfold probe; cbn [range]. subst w1. rewrite steps_size. unfold pause.
    now destruct (set_pause_frame true w) as ((_ & _ & -> & _) & _).
  - unfold set_pause. split_match; reflexivity.
Qed.

(* ================================================================== *)
(** ** Terminal states *)

Lemma flags_status u u' : flags u' = flags u -> currentState u' = currentState u.
Proof. unfold flags, currentState. now intros [= -> -> ->]. Qed.

Lemma set_progress_flags o w : flags (upload (set_progress o w)) = flags (upload w).
Proof. unfold set_progress. split_match; reflexivity. Qed.

Lemma set_error_flags e w : flags (upload (set_error e w)) = flags (upload w).
Proof. unfold set_error. split_match; reflexivity. Qed.

Lemma set_done_flags w :
  flags (upload (set_done true w))
  = (true, _cancel (state (upload w)), _pause (state (upload w))).
Proof. unfold set_done; cbn. split_match; reflexivity. Qed.

Lemma set_cancel_flags w :
  flags (upload (set_cancel true w))
  = (_done (state (upload w)), true, _pause (state (upload w))).
Proof. unfold set_cancel; cbn. split_match; reflexivity. Qed.

Lemma set_pause_flags b w :
  flags (upload (set_pause b w))
  = (_done (state (upload w)), _cancel (state (upload w)), b).
Proof. unfold set_pause; cbn. split_match; reflexivity. Qed.

Lemma flags_inv u a b c :
  flags u = (a, b, c) ->
  _done (state u) = a /\ _cancel (state u) = b /\ _pause (state u) = c.
Proof. unfold flags. now intros [= -> -> ->]. Qed.

Lemma doUpload_catch_flags e w :
  flags (upload (doUpload_catch e w)) = flags (upload w).
Proof.
  unfold doUpload_catch. split_match; rewrite ?doUpload_upload;
    apply set_error_flags.
Qed.

Lemma terminal_not_inprogress u :
  currentState u = DONE \/ currentState u = CANCEL ->
  Status_eqb (currentState u) INPROGRESS = false.
Proof. now intros [-> | ->]. Qed.

(** While the upload is not in progress ([done], [cancel] or [pause]
    set), what settles leaves the three flags as they are. *)
Lemma settle_flags ev w :
  Status_eqb (currentState (upload w)) INPROGRESS = false ->
  match ev with
  | CallCancel | CallDone | CallPause | CallResume => True
  | _ => flags (upload (step ev w)) = flags (upload w)
  end.
Proof.
  intros Hs. destruct ev; cbn [step]; auto; split_match; auto.
  - unfold run_then. split_match.
    + apply (set_error_flags _ (drop i w)).
    + now rewrite doUpload_upload.
  - unfold load_end. split_match. now rewrite send_upload.
  - unfold read_error. now rewrite doUpload_catch_flags.
  - unfold put_settled. split_match.
    + now rewrite (doUpload_catch_flags _ (drop i w)).
    + unfold doUpload_then.
      change (upload (drop i w)) with (upload w). now rewrite Hs.
    + now rewrite (doUpload_catch_flags ErrType (drop i w)).
  - now rewrite (doUpload_catch_flags _ (drop i w)).
  - now destruct (attach_frame k cb w) as (_ & E); unfold flags; rewrite E.
Qed.

(** A chunk request that completes while the upload is Done or
    Cancelled: nothing is sent and nothing is started. *)
Lemma put_settled_terminal i settled offset w :
  Status_eqb (currentState (upload w)) INPROGRESS = false ->
  nth_error (pending w) i = Some (TPut offset) ->
  puts (step (PutSettled i settled) w) = puts w /\
  pending (step (PutSettled i settled) w) = pending (drop i w) /\
  (forall response reply,
      settled = Fulfilled response -> uploadChunk_then response = inr reply ->
      step (PutSettled i settled) w = drop i w).
Proof.
  intros Hs Hn. cbn [step]. rewrite Hn.
  assert (Hc : forall e, puts (doUpload_catch e (drop i w)) = puts w /\
                         pending (doUpload_catch e (drop i w))
                           = pending (drop i w)).
  { intros e. unfold doUpload_catch.
    rewrite (flags_status _ _ (set_error_flags e (drop i w))).
    change (upload (drop i w)) with (upload w). rewrite Hs.
    destruct (set_error_frame e (drop i w)) as ((E1 & E2 & _) & _).
    now rewrite E1, E2. }
  assert (Ht : forall r, doUpload_then offset r (drop i w) = drop i w).
  { intros r. unfold doUpload_then.
    change (upload (drop i w)) with (upload w). now rewrite Hs. }
  unfold put_settled. destruct settled as [response|].
  - destruct (uploadChunk_then response) as [e|reply] eqn:Hr.
    + destruct (Hc e) as (E1 & E2). repeat split; auto. intros; congruence.
    + rewrite Ht. repeat split; auto.
  - destruct (Hc ErrType) as (E1 & E2). repeat split; auto.
    intros; congruence.
Qed.

(** C3 (as the code has it). Once the status is Done or Cancelled it
    stays Done or Cancelled under every event, and it stays what it is
    under every event but [done()]; a chunk request that completes in
    such a state sends nothing and starts nothing, and when the answer
    is well formed the world is left as it was.  [cancel()] on an
    upload that is done keeps the status Done, but it sets the cancel
    flag and emits the cancel signal: the listener is called, or the
    signal is queued for it.  [resume()] in such a state keeps the
    status and calls no listener. *)
Theorem terminal_status_is_kept :
  forall (w : World),
    currentState (upload w) = DONE \/ currentState (upload w) = CANCEL ->
    (forall ev,
       currentState (upload (step ev w)) = DONE \/
       currentState (upload (step ev w)) = CANCEL) /\
    (forall ev, ev <> CallDone ->
       currentState (upload (step ev w)) = currentState (upload w)) /\
    (forall i settled offset,
       nth_error (pending w) i = Some (TPut offset) ->
       puts (step (PutSettled i settled) w) = puts w /\
       pending (step (PutSettled i settled) w) = pending (drop i w) /\
       (forall response reply,
          settled = Fulfilled response ->
          uploadChunk_then response = inr reply ->
          step (PutSettled i settled) w = drop i w)) /\
    (currentState (upload w) = DONE ->
       currentState (upload (cancel w)) = DONE /\
       _cancel (state (upload (cancel w))) = true /\
       match _oncancel (upload w) with
       | Some cb => calls (cancel w) = calls w ++ [OnCancel cb None]
       | None => oncancel (eventQueue (upload (cancel w)))
                 = set_slot0 true (oncancel (eventQueue (upload w)))
       end) /\
    currentState (upload (resume w)) = currentState (upload w) /\
    calls (resume w) = calls w.
Proof.
  intros w Hterm.
  pose proof (terminal_not_inprogress _ Hterm) as Hs.
  assert (Hkeep : forall ev, ev <> CallDone ->
            currentState (upload (step ev w)) = currentState (upload w)).
  { intros ev Hev. pose proof (settle_flags ev w Hs) as Hf.
    destruct ev; try (now apply flags_status); cbn [step].
    - destruct (flags_inv _ _ _ _ (set_cancel_flags w)) as (D & C & P).
      unfold cancel, currentState in *. rewrite D, C.
      destruct (_done (state (upload w))); [reflexivity|].
      destruct (_cancel (state (upload w))); [reflexivity|].
      destruct Hterm; split_match; discriminate.
    - destruct (flags_inv _ _ _ _ (set_pause_flags true w)) as (D & C & P).
      unfold pause, currentState in *. rewrite D, C.
      destruct (_done (state (upload w))); [reflexivity|].
      destruct (_cancel (state (upload w))); [reflexivity|].
      destruct Hterm; split_match; discriminate.
    - unfold resume. rewrite doUpload_upload.
      destruct (flags_inv _ _ _ _ (set_pause_flags false w)) as (D & C & P).
      unfold currentState in *. rewrite D, C.
      destruct (_done (state (upload w))); [reflexivity|].
      destruct (_cancel (state (upload w))); [reflexivity|].
      destruct Hterm; split_match; discriminate. }
  split.
  { intros ev. destruct ev; try (rewrite Hkeep by discriminate; exact Hterm).
    left. cbn [step].
    destruct (flags_inv _ _ _ _ (set_done_flags w)) as (D & C & P).
    unfold done, currentState. now rewrite D. }
  split; [exact Hkeep|].
  split; [intros i settled offset Hn; now apply (put_settled_terminal i settled offset)|].
  split.
  { intros Hd.
    destruct (flags_inv _ _ _ _ (set_cancel_flags w)) as (D & C & P).
    assert (Hdone : _done (state (upload w)) = true).
    { unfold currentState in Hd.
      destruct (_done (state (upload w))); [reflexivity|].
      revert Hd. split_match; discriminate. }
    unfold cancel, currentState. rewrite D, Hdone.
    repeat split; [exact C|].
    unfold set_cancel; cbn. destruct (_oncancel (upload w)); reflexivity. }
  split; [apply (Hkeep CallResume); discriminate|].
  unfold resume. rewrite doUpload_calls.
  unfold set_pause. split_match; try reflexivity.
  (* a pause listener is not called when the flag written is false *)
  discriminate.
Qed.

Lemma terminal_status_is_kept_witness :
  currentState (upload done26) = DONE /\
  currentState (upload (cancel done26)) = DONE /\
  _cancel (state (upload (cancel done26))) = true /\
  calls (cancel done26) = calls done26 ++ [OnCancel 1%nat None] /\
  currentState (upload (resume done26)) = DONE /\
  calls (resume done26) = calls done26 /\
  currentState (upload (cancel loop26)) = CANCEL /\
  currentState (upload (resume (cancel loop26))) = CANCEL /\
  puts (step (PutSettled 0 (ack 15)) (finish_read (cancel loop26)))
    = puts (finish_read (cancel loop26)).
Proof.
  destruct (terminal_status_is_kept done26 (or_introl eq_refl))
    as (_ & _ & _ & Hc & Hr & Hl).
  destruct (Hc eq_refl) as (C1 & C2 & C3).
  split; [reflexivity|]. split; [exact C1|]. split; [exact C2|].
  split; [exact C3|]. split; [exact Hr|]. split; [exact Hl|].
  split; [reflexivity|].
  destruct (terminal_status_is_kept (cancel loop26) (or_intror eq_refl))
    as (_ & _ & _ & _ & Hr' & _).
  split; [exact Hr'|].
  destruct (terminal_status_is_kept (finish_read (cancel loop26))
              (or_intror eq_refl)) as (_ & _ & Hp & _).
  exact (proj1 (Hp 0%nat (ack 15) Undefined eq_refl)).
Defined.

(** C3, counterexample: on an upload that is done, [cancel()] calls
    the cancel listener and sets the cancel flag, and [resume()] sends
    a probe. *)
Lemma cancel_after_done_is_observable :
  currentState (upload done26) = DONE /\
  calls done26 = [] /\
  calls (cancel done26) = [OnCancel 1%nat None] /\
  _cancel (state (upload done26)) = false /\
  _cancel (state (upload (cancel done26))) = true /\
  List.length (puts done26) = 1%nat /\
  puts (resume done26) = puts done26 ++ [probe (upload done26)] /\
  calls (cancel done26) <> calls done26 /\
  puts (resume done26) <> puts done26.
Proof. vm_compute. repeat split; discriminate. Qed.

(* ================================================================== *)
(** ** Numbers in ranges and in [Range] headers *)

Lemma append_assoc (a b c : string) :
  ((a ++ b) ++ c = a ++ (b ++ c))%string.
Proof. induction a as [|x a IH]; cbn; [reflexivity | now rewrite IH]. Qed.

Lemma includes_app c (a b : string) :
  includes c (a ++ b)%string = includes c a || includes c b.
Proof.
  induction a as [|x a IH]; cbn; [reflexivity|].
  now rewrite IH, orb_assoc.
Qed.

Lemma digits_no_star d : includes "*" (NilEmpty.string_of_uint d) = false.
Proof. induction d; cbn; auto. Qed.

Lemma digits_split d :
  split "-" (NilEmpty.string_of_uint d) = [NilEmpty.string_of_uint d].
Proof. induction d; cbn; try rewrite IHd; reflexivity. Qed.

Lemma parse_digits_some d acc :
  parse_digits 10 (Some acc) (NilEmpty.string_of_uint d)
  = Some (uint_value d acc).
Proof.
  revert acc; induction d; intros acc;
    cbn [NilEmpty.string_of_uint parse_digits uint_value]; eval_chars; auto.
Qed.

Lemma parse_digits_none d :
  d <> Nil ->
  parse_digits 10 None (NilEmpty.string_of_uint d) = Some (uint_value d 0).
Proof.
  destruct d; intros H; try congruence;
    cbn [NilEmpty.string_of_uint parse_digits uint_value]; eval_chars;
    rewrite parse_digits_some; reflexivity.
Qed.

Lemma parseInt_digits d :
  d <> Nil -> parseInt (NilEmpty.string_of_uint d) = Num (uint_value d 0).
Proof.
  intros H. pose proof (parse_digits_none d H) as P.
  destruct d; try congruence; unfold parseInt;
    cbn [NilEmpty.string_of_uint trim_left] in *; eval_chars;
    try (rewrite P; f_equal; lia).
  destruct d; cbn [NilEmpty.string_of_uint] in *; rewrite P; f_equal; lia.
Qed.

Lemma of_uint_acc_value d acc :
  Z.pos (Pos.of_uint_acc d acc) = uint_value d (Z.pos acc).
Proof.
  revert acc; induction d; intros acc; cbn [Pos.of_uint_acc uint_value];
    try rewrite IHd; try reflexivity; f_equal; lia.
Qed.

Lemma of_uint_value d : Z.of_N (Pos.of_uint d) = uint_value d 0.
Proof.
  induction d; cbn [Pos.of_uint uint_value]; try exact IHd;
    try reflexivity; cbn [Z.of_N]; rewrite of_uint_acc_value; reflexivity.
Qed.

(** [`${n}`] has no star, whatever the number. *)
Lemma string_of_Z_no_star n : includes "*" (string_of_Z n) = false.
Proof.
  unfold string_of_Z. destruct (Z.to_int n); cbn; apply digits_no_star.
Qed.

(** Reading back a number that is not negative. *)
Lemma parseInt_string_of_Z n : 0 <= n -> parseInt (string_of_Z n) = Num n.
Proof.
  intros Hn. unfold string_of_Z.
  destruct n as [|p|p]; [reflexivity| |lia].
  cbn [Z.to_int NilEmpty.string_of_int].
  rewrite parseInt_digits by apply DecimalPos.Unsigned.to_uint_nonnil.
  rewrite <- of_uint_value, DecimalPos.Unsigned.of_to. reflexivity.
Qed.

Lemma string_of_Z_split n : 0 <= n -> split "-" (string_of_Z n) = [string_of_Z n].
Proof.
  intros Hn. unfold string_of_Z.
  destruct n as [|p|p]; [reflexivity| |lia]. apply digits_split.
Qed.

Lemma string_of_Z_nonempty n : 0 <= n -> String.eqb (string_of_Z n) "" = false.
Proof.
  intros Hn. unfold string_of_Z.
  destruct n as [|p|p]; [reflexivity| |lia].
  cbn [Z.to_int NilEmpty.string_of_int].
  pose proof (DecimalPos.Unsigned.to_uint_nonnil p) as H.
  destruct (Pos.to_uint p); try congruence; reflexivity.
Qed.

(** ** The answers of the server *)

Lemma uploadChunk_then_ack n :
  0 <= n ->
  uploadChunk_then {| status := 308;
                      Range := Some ("bytes 0-" ++ string_of_Z n)%string |}
  = inr (ReplyOffset (Num n)).
Proof.
  intros Hn. unfold uploadChunk_then. cbn.
  rewrite (string_of_Z_split n Hn). cbn.
  now rewrite (string_of_Z_nonempty n Hn), (parseInt_string_of_Z n Hn).
Qed.

Lemma uploadChunk_then_soft code rangeHeader :
  soft code ->
  uploadChunk_then {| status := code; Range := rangeHeader |}
  = inr (ReplyOffset RESUME_OFFSET).
Proof.
  intros (H1 & H2 & H3). unfold uploadChunk_then. cbn.
  destruct (Z.eqb_spec code 200); [contradiction|].
  destruct (Z.eqb_spec code 201); [contradiction|].
  destruct (Z.eqb_spec code 308); [contradiction|]. reflexivity.
Qed.

(* ================================================================== *)
(** ** One round of the transfer loop *)

Lemma concrete_range_no_star a b t : includes "*" (concrete_range a b t) = false.
Proof.
  unfold concrete_range.
  rewrite !includes_app, !string_of_Z_no_star. reflexivity.
Qed.

Lemma range_of_chunk offset c total :
  reads offset ->
  range_of offset (Some c) total
  = inr (concrete_range (range_start offset)
           (range_start offset + (chunk_size c - 1)) total).
Proof.
  intros [-> | (n & -> & Hn)]; unfold range_of, concrete_range; cbn.
  - reflexivity.
  - destruct (Z.eqb_spec n 0); [contradiction|]. cbn.
    now rewrite !append_assoc.
Qed.

Lemma send_chunk offset blob w :
  reads offset ->
  send offset (Some {| data := blob;
                       chunk_size := Z.of_nat (List.length blob) |}) w
  = await (TPut offset) (sent (chunk_put (upload w) offset blob) w).
Proof.
  intros Hr. unfold send. rewrite (range_of_chunk _ _ _ Hr).
  unfold uploadChunk. rewrite concrete_range_no_star. reflexivity.
Qed.

(** The end of the read that is alone in flight. *)
Lemma finish_read_chunk offset blob w :
  pending w = [TRead offset blob] -> reads offset ->
  let w1 := finish_read w in
  pending w1 = [TPut offset] /\
  puts w1 = puts w ++ [chunk_put (upload w) offset blob] /\
  calls w1 = calls w /\
  state (upload w1) = state (upload w) /\
  eventQueue (upload w1) = eventQueue (upload w) /\
  (forall k, listener k (upload w1) = listener k (upload w)) /\
  size (upload w1) = size (upload w) /\
  contentType (upload w1) = contentType (upload w) /\
  sessionUri (upload w1) = sessionUri (upload w) /\
  file (steamer (upload w1)) = file (steamer (upload w)) /\
  chunkSize (steamer (upload w1)) = chunkSize (steamer (upload w)).
Proof.
  intros Hp Hr. unfold finish_read. rewrite Hp. cbn [step]. rewrite Hp.
  cbn [nth_error]. unfold load_end, onloadend. rewrite send_chunk by exact Hr.
  cbn. rewrite Hp. cbn.
  repeat split; try reflexivity; try (intros []; reflexivity).
Qed.

Lemma finish_read_put offset w :
  pending w = [TPut offset] -> finish_read w = w.
Proof. intros Hp. unfold finish_read. now rewrite Hp. Qed.

(** What [doUpload] starts for an offset that reads. *)
Lemma doUpload_reads offset w :
  reads offset ->
  doUpload offset w
  = await (TRead offset
             (slice (file (steamer (upload w)))
                (start_offset (steamer (upload w)) offset)
                (let limit := start_offset (steamer (upload w)) offset
                              + chunkSize (steamer (upload w)) in
                 if limit <=? file_size (file (steamer (upload w)))
                 then limit else file_size (file (steamer (upload w)))))) w.
Proof.
  intros [-> | (n & -> & Hn)]; reflexivity.
Qed.

Lemma reads_reportable n : n <> 0 -> reads (Num n).
Proof. intros H. right. now exists n. Qed.

(** The answer to the request that is alone in flight, while the
    upload is in progress: 308 with a last byte [o] that is not zero
    signals the offset of the request answered, when it has one, and
    starts the read of the next chunk at byte [o] itself. *)
Lemma ack_round offset o w :
  pending w = [TPut offset] ->
  currentState (upload w) = INPROGRESS ->
  0 < o ->
  let w1 := step (PutSettled 0 (ack o)) w in
  w1 = doUpload (Num o) (set_progress offset (drop 0 w)) /\
  (exists blob, pending w1 = [TRead (Num o) blob]) /\
  calls w1 = calls (set_progress offset w) /\
  puts w1 = puts w /\
  flags (upload w1) = flags (upload w) /\
  (forall k, listener k (upload w1) = listener k (upload w)).
Proof.
  intros Hp Hs Ho w1.
  assert (E : w1 = doUpload (Num o) (set_progress offset (drop 0 w))).
  { subst w1. cbn [step]. rewrite Hp. cbn [nth_error].
    unfold put_settled, ack, answer. rewrite uploadChunk_then_ack by lia.
    unfold doUpload_then. change (upload (drop 0 w)) with (upload w).
    rewrite Hs. cbn [Status_eqb negb truthy].
    destruct (Z.eqb_spec o 0); [lia|]. reflexivity. }
  split; [exact E|]. rewrite E.
  destruct (set_progress_frame offset (drop 0 w))
    as ((E1 & E2 & _) & El).
  rewrite doUpload_reads by (apply reads_reportable; lia).
  cbn [pending calls puts upload await].
  split.
  { rewrite E2. cbn. rewrite Hp. cbn. eexists; reflexivity. }
  split.
  { unfold set_progress. change (upload (drop 0 w)) with (upload w).
    split_match; reflexivity. }
  split; [rewrite E1; reflexivity|].
  split; [apply (set_progress_flags offset (drop 0 w))|].
  intros k. apply El.
Qed.

(** 200 or 201 while in progress: the upload is done. *)
Lemma done_round offset code rangeHeader w :
  pending w = [TPut offset] ->
  currentState (upload w) = INPROGRESS ->
  code = 200 \/ code = 201 ->
  let w1 := step (PutSettled 0 (answer code rangeHeader)) w in
  w1 = set_done true (drop 0 w) /\
  pending w1 = [] /\ puts w1 = puts w /\
  currentState (upload w1) = DONE /\
  progress_calls w1 = progress_calls w /\
  error_calls w1 = error_calls w.
Proof.
  intros Hp Hs Hc w1.
  assert (E : w1 = set_done true (drop 0 w)).
  { subst w1. cbn [step]. rewrite Hp. cbn [nth_error].
    unfold put_settled, answer, uploadChunk_then. cbn [status].
    replace ((code =? 200) || (code =? 201)) with true
      by (destruct Hc as [-> | ->]; reflexivity).
    unfold doUpload_then. change (upload (drop 0 w)) with (upload w).
    now rewrite Hs. }
  split; [exact E|]. rewrite E.
  destruct (set_done_frame true (drop 0 w)) as ((E1 & E2 & _) & _).
  destruct (flags_inv _ _ _ _ (set_done_flags (drop 0 w))) as (D & _).
  split; [rewrite E2; cbn; now rewrite Hp|].
  split; [rewrite E1; reflexivity|].
  split; [unfold currentState; now rewrite D|].
  unfold progress_calls, error_calls, set_done; cbn.
  split_match; cbn; split; try reflexivity;
    rewrite flat_map_app; cbn; now rewrite app_nil_r.
Qed.

(** A soft failure while in progress: no error is reported; the
    offset of the request answered is signalled when it is a number;
    the loop goes on with the resume marker, that is, with a probe. *)
Lemma soft_round offset code rangeHeader w :
  pending w = [TPut offset] ->
  currentState (upload w) = INPROGRESS ->
  soft code ->
  let w1 := step (PutSettled 0 (answer code rangeHeader)) w in
  w1 = doUpload RESUME_OFFSET (set_progress offset (drop 0 w)) /\
  pending w1 = [TPut RESUME_OFFSET] /\
  puts w1 = puts w ++ [probe (upload w)] /\
  calls w1 = calls (set_progress offset w) /\
  error_calls w1 = error_calls w /\
  onerror (eventQueue (upload w1)) = onerror (eventQueue (upload w)) /\
  flags (upload w1) = flags (upload w) /\
  (forall k, listener k (upload w1) = listener k (upload w)).
Proof.
  intros Hp Hs Hc w1.
  assert (E : w1 = doUpload RESUME_OFFSET (set_progress offset (drop 0 w))).
  { subst w1. cbn [step]. rewrite Hp. cbn [nth_error].
    unfold put_settled, answer. rewrite uploadChunk_then_soft by exact Hc.
    unfold doUpload_then. change (upload (drop 0 w)) with (upload w).
    now rewrite Hs. }
  split; [exact E|]. rewrite E, doUpload_resume.
  destruct (set_progress_frame offset (drop 0 w))
    as ((E1 & E2 & E3 & _ & _ & E4) & El).
  assert (Ec : calls (set_progress offset (drop 0 w))
               = calls (set_progress offset w)).
  { unfold set_progress. change (upload (drop 0 w)) with (upload w).
    split_match; reflexivity. }
  unfold error_calls.
  cbn [pending calls puts upload await sent].
  rewrite E1, E2, Ec. cbn [pending puts drop]. rewrite Hp.
  cbn [firstn skipn app].
  repeat split; try reflexivity.
  - unfold probe. now rewrite E3, E4.
  - unfold set_progress.
    split_match; cbn; try reflexivity.
    rewrite flat_map_app. cbn. now rewrite app_nil_r.
  - unfold set_progress. split_match; reflexivity.
  - apply (set_progress_flags offset (drop 0 w)).
  - intros k. apply El.
Qed.

(* ================================================================== *)
(** ** Progress signals *)


Lemma state_status u u' : state u' = state u -> currentState u' = currentState u.
Proof. unfold currentState. now intros ->. Qed.










(* ================================================================== *)
(** ** Failures of a chunk request *)

(** [upload.progress = offset] does nothing when the offset is absent
    or the resume marker. *)
Lemma set_progress_ignored offset w :
  offset = Undefined \/ offset = RESUME_OFFSET -> set_progress offset w = w.
Proof. now intros [-> | ->]. Qed.

Lemma set_done_onerror b w :
  onerror (eventQueue (upload (set_done b w)))
  = onerror (eventQueue (upload w)).
Proof. unfold set_done. split_match; reflexivity. Qed.

Lemma catch_round e w :
  currentState (upload w) = INPROGRESS ->
  let w1 := doUpload_catch e w in
  w1 = doUpload RESUME_OFFSET (set_error e w) /\
  error_signalled e w w1 /\
  puts w1 = puts w ++ [probe (upload w)] /\
  pending w1 = pending w ++ [TPut RESUME_OFFSET] /\
  currentState (upload w1) = INPROGRESS.
Proof.
  intros Hs w1.
  assert (E : w1 = doUpload RESUME_OFFSET (set_error e w)).
  { subst w1. unfold doUpload_catch.
    rewrite (flags_status _ _ (set_error_flags e w)). now rewrite Hs. }
  split; [exact E|]. rewrite E, doUpload_resume.
  destruct (set_error_frame e w) as ((E1 & E2 & E3 & _ & _ & E4) & El).
  unfold error_signalled.
  cbn [pending calls puts upload await sent].
  rewrite E1, E2, (flags_status _ _ (set_error_flags e w)).
  repeat split; auto.
  - unfold set_error. destruct (_onerror (upload w)); cbn; auto.
  - unfold probe. now rewrite E3, E4.
Qed.

Lemma thrown_round offset settled e w :
  pending w = [TPut offset] ->
  currentState (upload w) = INPROGRESS ->
  thrown settled = Some e ->
  step (PutSettled 0 settled) w = doUpload_catch e (drop 0 w).
Proof.
  intros Hp Hs Ht. cbn [step]. rewrite Hp. cbn [nth_error].
  unfold put_settled, thrown in *.
  destruct settled as [response|]; [|now injection Ht as <-].
  destruct (uploadChunk_then response) as [e'|[|o]];
    [now injection Ht as <- | discriminate |].
  unfold doUpload_then. change (upload (drop 0 w)) with (upload w).
  rewrite Hs. cbn [Status_eqb negb].
  destruct (truthy o); [discriminate | now injection Ht as <-].
Qed.

(** C2 (as the code has it). While the upload is in progress, a chunk
    request that fails by throwing, or a read that fails, is reported
    once by the error signal and retried with the resume marker, that
    is, by a probe.  A
    request answered with a status other than 200, 201 and 308 is
    retried in the same way, but it throws nothing and no error is
    signalled.  So, when the first two requests are answered with such
    a status and the third with 200, the upload ends Done, the error
    listener has been called 0 times, the error queue is empty, and
    the progress listener has been called 0 times; the requests sent
    are the first chunk and two probes. *)
Theorem soft_failure_retried_without_error_signal :
  (forall (w : World) (offset : Offset),
     pending w = [TPut offset] ->
     currentState (upload w) = INPROGRESS ->
     (forall settled e, thrown settled = Some e ->
        let w1 := step (PutSettled 0 settled) w in
        error_signalled e w w1 /\
        puts w1 = puts w ++ [probe (upload w)] /\
        pending w1 = [TPut RESUME_OFFSET] /\
        currentState (upload w1) = INPROGRESS) /\
     (forall code rangeHeader, soft code ->
        let w1 := step (PutSettled 0 (answer code rangeHeader)) w in
        error_calls w1 = error_calls w /\
        onerror (eventQueue (upload w1)) = onerror (eventQueue (upload w)) /\
        puts w1 = puts w ++ [probe (upload w)] /\
        pending w1 = [TPut RESUME_OFFSET] /\
        currentState (upload w1) = INPROGRESS)) /\
  (forall (w : World) (offset : Offset) (blob : list byte) (loaded : Z),
     pending w = [TRead offset blob] ->
     currentState (upload w) = INPROGRESS ->
     let w1 := step (ReadError 0 loaded) w in
     error_signalled ErrRead w w1 /\
     puts w1 = puts w ++ [probe (upload w)] /\
     pending w1 = [TPut RESUME_OFFSET] /\
     currentState (upload w1) = INPROGRESS) /\
  (forall (win : Window) (f : option File) (cs : option Z) (w : World)
          (cbe cbp : Listener) (settled : Settled SessionResponse)
          (uri : option string) (c1 c2 : Z) (h1 h2 h3 : option string),
     run_chunked win f cs = inr w ->
     getSessionUri settled = inr uri ->
     soft c1 -> soft c2 ->
     let w1 := step (SessionSettled 0 settled)
                 (attach KProgress cbp (attach KError cbe w)) in
     let w2 := serve [answer c1 h1; answer c2 h2; answer 200 h3] w1 in
     currentState (upload w2) = DONE /\
     error_calls w2 = [] /\
     onerror (eventQueue (upload w2)) = [] /\
     progress_calls w2 = [] /\
     List.length (puts w2) = 3%nat /\
     skipn 1 (puts w2) = [probe (upload w1); probe (upload w1)]).
Proof.
  split.
  - intros w offset Hp Hs. split.
    + intros settled e Ht w1. subst w1.
      rewrite (thrown_round offset settled e w Hp Hs Ht).
      pose proof (catch_round e (drop 0 w) Hs) as H. cbv zeta in H.
      destruct H as (_ & Hsig & Hputs & Hpend & Hst).
      cbn [pending drop] in Hpend. rewrite Hp in Hpend.
      auto.
    + intros code rangeHeader Hc w1.
      pose proof (soft_round offset code rangeHeader w Hp Hs Hc) as H.
      cbv zeta in H. destruct H as (_ & P & U & _ & Ec & Eq & F & _).
      fold w1 in P, U, Ec, Eq, F.
      repeat split; auto.
      rewrite (flags_status _ _ F). exact Hs.
  - split.
    { intros w offset blob loaded Hp Hs w1. subst w1.
      cbn [step]. rewrite Hp. cbn [nth_error]. unfold read_error.
      match goal with |- context [doUpload_catch ErrRead ?x] =>
        pose proof (catch_round ErrRead x Hs) as H end.
      cbv zeta in H. destruct H as (_ & Hsig & Hputs & Hpend & Hst).
      cbn [pending drop with_upload] in Hpend. rewrite Hp in Hpend.
      auto. }
    intros win f cs w cbe cbp settled uri c1 c2 h1 h2 h3 Hrun Hs H1 H2 w1 w2.
    assert (Hw1 : exists blob,
      pending w1 = [TRead Undefined blob] /\ calls w1 = [] /\ puts w1 = [] /\
      currentState (upload w1) = INPROGRESS /\
      onerror (eventQueue (upload w1)) = []).
    { subst w1. unfold run_chunked in Hrun.
      destruct f as [f|]; [|discriminate].
      destruct (Steamer_new win (Some f) cs) as [e|s]; [discriminate|].
      injection Hrun as <-. cbn. unfold run_then. rewrite Hs.
      eexists. repeat split; reflexivity. }
    destruct Hw1 as (blob & P1 & C1 & U1 & S1 & Q1).
    clearbody w1.
    destruct (finish_read_chunk Undefined blob w1 P1 (or_introl eq_refl))
      as (Pa & Ua & Ca & Sa & Qa & _ & Za & _ & Ra & _).
    pose proof (state_status _ _ Sa) as Sta. rewrite S1 in Sta.
    pose proof (soft_round Undefined c1 h1 _ Pa Sta H1) as Hb.
    cbv zeta in Hb. destruct Hb as (_ & Pb & Ub & Cb & Eb & Qb & Fb & _).
    pose proof (flags_status _ _ Fb) as Stb. rewrite Sta in Stb.
    pose proof (soft_round RESUME_OFFSET c2 h2 _ Pb Stb H2) as Hc.
    cbv zeta in Hc. destruct Hc as (Ec & Pc & Uc & Cc & Ecc & Qc & Fc & _).
    pose proof (flags_status _ _ Fc) as Stc. rewrite Stb in Stc.
    pose proof (done_round RESUME_OFFSET 200 h3 _ Pc Stc (or_introl eq_refl))
      as Hd.
    cbv zeta in Hd. destruct Hd as (Ed & Pd & Ud & Dd & Cd & Edd).
    assert (Ew : w2 = step (PutSettled 0 (answer 200 h3))
                        (step (PutSettled 0 (answer c2 h2))
                           (step (PutSettled 0 (answer c1 h1))
                              (finish_read w1)))).
    { subst w2. cbn [serve].
      rewrite (finish_read_put _ _ Pb), (finish_read_put _ _ Pc).
      unfold finish_read at 1. now rewrite Pd. }
    rewrite Ew.
    assert (Eprobe : probe (upload (step (PutSettled 0 (answer c1 h1))
                                      (finish_read w1)))
                     = probe (upload (finish_read w1))).
    { rewrite (proj1 (soft_round Undefined c1 h1 _ Pa Sta H1)).
      rewrite doUpload_upload.
      destruct (set_progress_frame Undefined (drop 0 (finish_read w1)))
        as ((_ & _ & E3 & _ & _ & E4) & _).
      unfold probe. now rewrite E3, E4. }
    assert (Eprobe1 : probe (upload (finish_read w1)) = probe (upload w1)).
    { unfold probe. now rewrite Za, Ra. }
    split; [exact Dd|].
    split.
    { rewrite Edd, Ecc, Eb. unfold error_calls. now rewrite Ca, C1. }
    split.
    { rewrite Ed, set_done_onerror.
      change (upload (drop 0 ?x)) with (upload x).
      now rewrite Qc, Qb, Qa. }
    split.
    { rewrite Cd. unfold progress_calls.
      rewrite Cc, set_progress_ignored, Cb, set_progress_ignored
        by (now left + now right).
      now rewrite Ca, C1. }
    rewrite Ud, Uc, Ub, Ua, U1, Eprobe, Eprobe1. cbn. auto.
Qed.

Lemma soft_failure_retried_without_error_signal_witness :
  run_chunked window_ok (Some file26) (Some 16) = inr world26 /\
  (let w1 := step (SessionSettled 0 session_ok)
               (attach KProgress 2%nat (attach KError 1%nat world26)) in
   let w2 := serve [answer 503 None; answer 500 None; answer 200 None] w1 in
   currentState (upload w2) = DONE /\
   error_calls w2 = [] /\
   onerror (eventQueue (upload w2)) = [] /\
   progress_calls w2 = [] /\
   List.length (puts w2) = 3%nat /\
   skipn 1 (puts w2) = [probe (upload w1); probe (upload w1)]) /\
  (let w1 := step (SessionSettled 0 session_ok)
               (attach KError 1%nat world26) in
   calls (step (PutSettled 0 Rejected) (finish_read w1))
     = [OnError 1%nat ErrType] /\
   calls (step (PutSettled 0 (answer 308 None)) (finish_read w1))
     = [OnError 1%nat ErrType] /\
   calls (step (PutSettled 0 (answer 308 (Some "bytes"))) (finish_read w1))
     = [OnError 1%nat ErrInvalidRange] /\
   calls (step (ReadError 0 0) w1) = [OnError 1%nat ErrRead] /\
   pending (step (ReadError 0 0) w1) = [TPut RESUME_OFFSET]).
Proof.
  split; [reflexivity|].
  destruct soft_failure_retried_without_error_signal as (Hput & Hread & H).
  split.
  { apply (H window_ok (Some file26) (Some 16) world26 1%nat 2%nat session_ok
             _ 503 500 None None None eq_refl eq_refl);
      unfold soft; lia. }
  cbv zeta.
  destruct (Hput (finish_read (step (SessionSettled 0 session_ok)
                                 (attach KError 1%nat world26)))
              Undefined eq_refl eq_refl) as (Hthrown & _).
  destruct (Hthrown Rejected ErrType eq_refl) as (X1 & _).
  destruct (Hthrown (answer 308 None) ErrType eq_refl) as (X2 & _).
  destruct (Hthrown (answer 308 (Some "bytes")) ErrInvalidRange eq_refl)
    as (X3 & _).
  split; [exact (proj1 X1)|].
  split; [exact (proj1 X2)|].
  split; [exact (proj1 X3)|].
  destruct (Hread (step (SessionSettled 0 session_ok)
                     (attach KError 1%nat world26))
              Undefined _ 0 eq_refl eq_refl) as (E & _ & P & _).
  split; [exact (proj1 E) | exact P].
Defined.

(** C2, counterexample: the first two chunk requests are answered 503
    and the third 200; the upload is Done and the error listener,
    attached from the start, was never called. *)
Lemma two_soft_failures_no_error_signal :
  let w1 := step (SessionSettled 0 session_ok)
              (attach KProgress 2%nat (attach KError 1%nat world26)) in
  let w2 := serve [answer 503 None; answer 503 None; answer 200 None] w1 in
  currentState (upload w2) = DONE /\
  calls w2 = [] /\
  eventQueue (upload w2)
    = {| onprogress := []; onerror := []; ondone := [true]; oncancel := [];
         onpause := [] |} /\
  List.length (error_calls w2) <> 2%nat.
Proof. cbv zeta. vm_compute. repeat split; discriminate. Qed.

(* ================================================================== *)
(** ** Where the loop resumes after a 308 *)

(** A round, with the chunk that is read next. *)
Lemma ack_round_blob offset o w :
  pending w = [TPut offset] ->
  currentState (upload w) = INPROGRESS ->
  0 < o -> 0 <= chunkSize (steamer (upload w)) ->
  let f := file (steamer (upload w)) in
  let w1 := step (PutSettled 0 (ack o)) w in
  pending w1
    = [TRead (Num o)
         (window f o (Z.min (chunkSize (steamer (upload w)))
                            (file_size f - o)))] /\
  puts w1 = puts w /\
  currentState (upload w1) = INPROGRESS /\
  size (upload w1) = size (upload w) /\
  steamer (upload w1) = steamer (upload w).
Proof.
  intros Hp Hs Ho Hc f w1.
  destruct (ack_round offset o w Hp Hs Ho) as (E & _ & _ & U & F & _).
  fold w1 in E, U, F.
  destruct (set_progress_frame offset (drop 0 w))
    as ((_ & E2 & E3 & _ & E5 & _) & _).
  change (upload (drop 0 w)) with (upload w) in E3, E5.
  assert (Eu : upload w1 = upload (set_progress offset (drop 0 w)))
    by (rewrite E; apply doUpload_upload).
  split.
  { rewrite E, doUpload_reads by (apply reads_reportable; lia).
    cbn [pending await]. rewrite E2. cbn [pending drop]. rewrite Hp.
    cbn [firstn skipn app]. rewrite E5. unfold start_offset.
    destruct (Z.eqb_spec o 0); [lia|].
    cbv zeta. rewrite slice_window by lia. reflexivity. }
  split; [exact U|].
  split; [rewrite (flags_status _ _ F); exact Hs|].
  rewrite Eu. auto.
Qed.

(** C1 (what the code does). A source of [chunkSize + 10] bytes is sent
    in two requests, and the upload is then Done; the first request
    carries the bytes [0, chunkSize).  The server acknowledges it with
    [Range: bytes 0-<chunkSize - 1>], and the second request starts at
    byte [chunkSize - 1], the last byte acknowledged, and not at the
    byte after it: it carries the 11 bytes [chunkSize - 1,
    chunkSize + 10), so that byte [chunkSize - 1] is sent twice. *)
Theorem second_request_starts_at_last_byte_acknowledged :
  forall (win : Window) (f : File) (cs : Z) (w : World)
         (settled : Settled SessionResponse) (uri : option string),
    11 <= cs -> file_size f = cs + 10 ->
    run_chunked win (Some f) (Some cs) = inr w ->
    getSessionUri settled = inr uri ->
    let w1 := step (SessionSettled 0 settled) w in
    let w2 := serve [ack (cs - 1); answer 200 None] w1 in
    map range (puts w2)
      = [concrete_range 0 (cs - 1) (cs + 10);
         concrete_range (cs - 1) (cs + 9) (cs + 10)] /\
    map (fun p => body (options p)) (puts w2)
      = [Some (window f 0 cs); Some (window f (cs - 1) 11)] /\
    currentState (upload w2) = DONE.
Proof.
  intros win f cs w settled uri Hcs Hsz Hrun Hs w1 w2.
  assert (Hw1 :
    pending w1 = [TRead Undefined (window f 0 cs)] /\ puts w1 = [] /\
    currentState (upload w1) = INPROGRESS /\ size (upload w1) = cs + 10 /\
    file (steamer (upload w1)) = f /\ chunkSize (steamer (upload w1)) = cs).
  { subst w1. unfold run_chunked, Steamer_new in Hrun.
    destruct (negb (window_File win) || negb (window_FileReader win));
      [discriminate|].
    destruct (Z.eqb_spec cs 0); [lia|]. injection Hrun as <-.
    cbn [step pending nth_error]. unfold run_then. rewrite Hs.
    rewrite doUpload_reads by now left.
    cbn [pending await upload drop with_upload with_sessionUri steamer
         Upload_new file chunkSize progress start_offset firstn skipn app
         puts size state].
    cbv zeta. rewrite slice_window by lia.
    replace (Z.min cs (file_size f - 0)) with cs by lia.
    repeat split; auto. }
  destruct Hw1 as (P1 & U1 & S1 & Z1 & F1 & C1).
  clearbody w1.
  assert (L0 : Z.of_nat (List.length (window f 0 cs)) = cs)
    by (apply window_length; lia).
  assert (L1 : Z.of_nat (List.length (window f (cs - 1) 11)) = 11)
    by (apply window_length; lia).
  destruct (finish_read_chunk Undefined _ w1 P1 (or_introl eq_refl))
    as (Pa & Ua & _ & Sa & _ & _ & Za & _ & _ & Fa & Ca).
  pose proof (state_status _ _ Sa) as Sta. rewrite S1 in Sta.
  pose proof (ack_round_blob Undefined (cs - 1) _ Pa Sta) as Hb.
  cbv zeta in Hb. rewrite Fa, Ca, F1, C1 in Hb.
  destruct Hb as (Pb & Ub & Sb & Zb & _); try lia.
  replace (Z.min cs (file_size f - (cs - 1))) with 11 in Pb by lia.
  set (wb := step (PutSettled 0 (ack (cs - 1))) (finish_read w1)) in *.
  destruct (finish_read_chunk (Num (cs - 1)) _ wb Pb
              (reads_reportable (cs - 1) ltac:(lia)))
    as (Pc & Uc & _ & Sc & _).
  pose proof (state_status _ _ Sc) as Stc. rewrite Sb in Stc.
  pose proof (done_round (Num (cs - 1)) 200 None _ Pc Stc (or_introl eq_refl))
    as Hd.
  cbv zeta in Hd. destruct Hd as (_ & Pd & Ud & Dd & _).
  assert (Ew : w2 = step (PutSettled 0 (answer 200 None)) (finish_read wb)).
  { subst w2. cbn [serve]. fold wb. unfold finish_read at 1. now rewrite Pd. }
  rewrite Ew, Ud, Uc, Ub, Ua, U1.
  unfold chunk_put. cbv zeta.
  cbn [app map range options body range_start].
  rewrite L0, L1, Zb, Za, Z1.
  replace (0 + (cs - 1)) with (cs - 1) by lia.
  replace (cs - 1 + (11 - 1)) with (cs + 9) by lia.
  auto.
Qed.

Lemma second_request_starts_at_last_byte_acknowledged_witness :
  let w1 := step (SessionSettled 0 session_ok) world26 in
  let w2 := serve [ack 15; answer 200 None] w1 in
  map range (puts w2) = ["bytes 0-15/26"; "bytes 15-25/26"]%string /\
  map (fun p => body (options p)) (puts w2)
    = [Some [x00; x01; x02; x03; x04; x05; x06; x07; x08; x09; x0a; x0b;
             x0c; x0d; x0e; x0f];
       Some [x0f; x10; x11; x12; x13; x14; x15; x16; x17; x18; x19]] /\
  currentState (upload w2) = DONE.
Proof.
  exact (second_request_starts_at_last_byte_acknowledged window_ok file26 16
           world26 session_ok _ ltac:(lia) eq_refl eq_refl eq_refl).
Defined.

(* ================================================================== *)
(** ** The [Range] header of a 308 answer *)

Lemma split_no_dash (h : string) :
  includes "-" h = false -> split "-" h = [h].
Proof.
  induction h as [|c h IH]; cbn; [reflexivity|].
  destruct (Ascii.eqb c "-"); cbn; [discriminate|].
  intros H. now rewrite (IH H).
Qed.

Lemma split_at_dash (p s : string) :
  includes "-" p = false ->
  split "-" (p ++ String "-" s)%string = p :: split "-" s.
Proof.
  induction p as [|c p IH]; cbn; [reflexivity|].
  destruct (Ascii.eqb c "-"); cbn; [discriminate|].
  intros H. now rewrite (IH H).
Qed.



(** X2. A 308 answer that names no last byte throws: with no [Range]
    header at all it is a [TypeError]; with a header that has no dash,
    or nothing between its first dash and the next dash or the end,
    it is the error [Invalid 'Range' header received].  While the
    upload is in progress each of these is signalled once as an error
    and followed by a probe. *)
Theorem range_header_without_last_byte_throws :
  forall (w : World) (offset : Offset) (p rest : string),
    pending w = [TPut offset] ->
    currentState (upload w) = INPROGRESS ->
    includes "-" p = false ->
    uploadChunk_then {| status := 308; Range := None |} = inl ErrType /\
    uploadChunk_then {| status := 308; Range := Some p |}
      = inl ErrInvalidRange /\
    uploadChunk_then {| status := 308; Range := Some (p ++ "-")%string |}
      = inl ErrInvalidRange /\
    uploadChunk_then
      {| status := 308; Range := Some (p ++ "--" ++ rest)%string |}
      = inl ErrInvalidRange /\
    (forall h e,
       (h = None /\ e = ErrType) \/
       (e = ErrInvalidRange /\
        (h = Some p \/ h = Some (p ++ "-")%string \/
         h = Some (p ++ "--" ++ rest)%string)) ->
       let w1 := step (PutSettled 0 (answer 308 h)) w in
       error_signalled e w w1 /\
       puts w1 = puts w ++ [probe (upload w)] /\
       pending w1 = [TPut RESUME_OFFSET] /\
       currentState (upload w1) = INPROGRESS).
Proof.
  intros w offset p rest Hp Hs Hd.
  assert (E1 : uploadChunk_then {| status := 308; Range := None |}
               = inl ErrType) by reflexivity.
  assert (E2 : uploadChunk_then {| status := 308; Range := Some p |}
               = inl ErrInvalidRange).
  { unfold uploadChunk_then. cbn [status Range].
    change (308 =? 200) with false. change (308 =? 201) with false.
    change (308 =? 308) with true. cbn [orb].
    now rewrite (split_no_dash p Hd). }
  assert (E3 : uploadChunk_then
                 {| status := 308; Range := Some (p ++ "-")%string |}
               = inl ErrInvalidRange).
  { unfold uploadChunk_then. cbn [status Range].
    change (308 =? 200) with false. change (308 =? 201) with false.
    change (308 =? 308) with true. cbn [orb].
    change (p ++ "-")%string with (p ++ String "-" "")%string.
    now rewrite (split_at_dash p _ Hd). }
  assert (E4 : uploadChunk_then
                 {| status := 308;
                    Range := Some (p ++ "--" ++ rest)%string |}
               = inl ErrInvalidRange).
  { unfold uploadChunk_then. cbn [status Range].
    change (308 =? 200) with false. change (308 =? 201) with false.
    change (308 =? 308) with true. cbn [orb].
    change ("--" ++ rest)%string with (String "-" (String "-" rest)).
    rewrite (split_at_dash p _ Hd). reflexivity. }
  repeat (split; [assumption|]).
  intros h e He w1.
  assert (Ht : thrown (answer 308 h) = Some e).
  { unfold thrown, answer.
    destruct He as [(-> & ->) | (-> & [-> | [-> | ->]])];
      [now rewrite E1 | now rewrite E2 | now rewrite E3 | now rewrite E4]. }
  subst w1. rewrite (thrown_round offset _ e w Hp Hs Ht).
  pose proof (catch_round e (drop 0 w) Hs) as H. cbv zeta in H.
  destruct H as (_ & Hsig & Hputs & Hpend & Hst).
  cbn [pending drop] in Hpend. rewrite Hp in Hpend. auto.
Qed.

Lemma range_header_without_last_byte_throws_witness :
  calls (step (PutSettled 0 (answer 308 None)) sending26)
    = [OnError 2%nat ErrType] /\
  calls (step (PutSettled 0 (answer 308 (Some "bytes"))) sending26)
    = [OnError 2%nat ErrInvalidRange] /\
  calls (step (PutSettled 0 (answer 308 (Some "bytes=0-"))) sending26)
    = [OnError 2%nat ErrInvalidRange] /\
  calls (step (PutSettled 0 (answer 308 (Some "bytes=0--5"))) sending26)
    = [OnError 2%nat ErrInvalidRange].
Proof.
  destruct (range_header_without_last_byte_throws sending26 Undefined
              "bytes" "" eq_refl eq_refl eq_refl) as (_ & _ & _ & _ & H1).
  destruct (range_header_without_last_byte_throws sending26 Undefined
              "bytes=0" "5" eq_refl eq_refl eq_refl) as (_ & _ & _ & _ & H2).
  destruct (H1 None ErrType (or_introl (conj eq_refl eq_refl))) as (A & _).
  destruct (H1 (Some "bytes") ErrInvalidRange
              (or_intror (conj eq_refl (or_introl eq_refl)))) as (B & _).
  destruct (H2 (Some "bytes=0-") ErrInvalidRange
              (or_intror (conj eq_refl (or_intror (or_introl eq_refl)))))
    as (C & _).
  destruct (H2 (Some "bytes=0--5") ErrInvalidRange
              (or_intror (conj eq_refl (or_intror (or_intror eq_refl)))))
    as (D & _).
  split; [exact (proj1 A)|]. split; [exact (proj1 B)|].
  split; [exact (proj1 C) | exact (proj1 D)].
Defined.

(* ================================================================== *)
(** ** The size of a chunk *)

Lemma firstn_length_firstn {A : Type} (n : nat) (l : list A) :
  firstn (List.length (firstn n l)) l = firstn n l.
Proof.
  revert n; induction l as [|x l IH]; intros [|n]; cbn; auto.
  now rewrite IH.
Qed.

(** X3. Whatever the offset (absent, zero, beyond the end of the file,
    negative), the blob that [next] hands to the reader is a run of
    consecutive bytes of the file, no longer than [chunkSize] and no
    longer than the file. *)
Theorem chunk_is_window_of_at_most_chunkSize :
  forall (s : Steamer) (offset : Offset) (blob : list byte),
    0 <= chunkSize s ->
    next s offset = Some blob ->
    Z.of_nat (List.length blob) <= chunkSize s /\
    Z.of_nat (List.length blob) <= file_size (file s) /\
    exists start, 0 <= start <= file_size (file s) /\
      blob = window (file s) start (Z.of_nat (List.length blob)).
Proof.
  intros s offset blob Hc. unfold next.
  destruct (is_resume offset); [discriminate|]. intros [= <-].
  set (a := start_offset s offset).
  unfold slice, window, file_size, clamp.
  set (l := content (file s)).
  assert (Hl : 0 <= Z.of_nat (List.length l)) by lia.
  split; [|split].
  - rewrite length_firstn, length_skipn.
    destruct (Z.leb_spec (a + chunkSize s) (Z.of_nat (List.length l)));
      destruct (Z.ltb_spec a 0);
      try destruct (Z.ltb_spec (a + chunkSize s) 0);
      try destruct (Z.ltb_spec (Z.of_nat (List.length l)) 0); lia.
  - rewrite length_firstn, length_skipn. lia.
  - eexists. split; [|rewrite Nat2Z.id; symmetry; apply firstn_length_firstn].
    destruct (Z.ltb_spec a 0); lia.
Qed.

Lemma chunk_is_window_of_at_most_chunkSize_witness :
  let s := {| file := file26; chunkSize := 16; progress := 0 |} in
  next s (Num 23) = Some [x17; x18; x19] /\
  Z.of_nat (List.length [x17; x18; x19]) <= chunkSize s /\
  Z.of_nat (List.length [x17; x18; x19]) <= file_size file26.
Proof.
  cbv zeta. split; [reflexivity|].
  destruct (chunk_is_window_of_at_most_chunkSize
              {| file := file26; chunkSize := 16; progress := 0 |}
              (Num 23) [x17; x18; x19] ltac:(cbn; lia) eq_refl)
    as (A & B & _).
  split; [exact A | exact B].
Defined.

(* ================================================================== *)
(** ** Reading a whole file *)

Lemma firstn_app_skipn {A : Type} (n m : nat) (l : list A) :
  firstn n l ++ firstn m (skipn n l) = firstn (n + m) l.
Proof.
  revert l; induction n as [|n IH]; intros l; [reflexivity|].
  destruct l as [|x l]; cbn; [now rewrite firstn_nil|].
  now rewrite IH.
Qed.

Lemma skipn_skipn_add {A : Type} (n m : nat) (l : list A) :
  skipn m (skipn n l) = skipn (n + m) l.
Proof.
  revert l; induction n as [|n IH]; intros l; [reflexivity|].
  destruct l as [|x l]; cbn; [now rewrite skipn_nil|]. apply IH.
Qed.

(** What a read with no offset resolves with, and where it leaves the
    cursor. *)
Lemma next_at_cursor (s : Steamer) :
  0 <= chunkSize s -> 0 <= progress s ->
  next s Undefined
  = Some (window (file s) (progress s)
            (Z.min (chunkSize s) (file_size (file s) - progress s))).
Proof.
  intros Hc Hp. unfold next; cbn. f_equal. apply slice_window; lia.
Qed.

Lemma read_chunks_from_cursor k : forall s,
  0 < chunkSize s -> 0 <= progress s ->
  let '(chunks, s') := read_chunks k s in
  chunks_data chunks
    = window (file s) (progress s) (Z.of_nat k * chunkSize s) /\
  progress s' = progress s + Z.of_nat (List.length (chunks_data chunks)) /\
  file s' = file s /\ chunkSize s' = chunkSize s /\
  List.length chunks = k /\
  Forall (fun c => chunk_size c = Z.of_nat (List.length (data c))
                   /\ chunk_size c <= chunkSize s) chunks.
Proof.
  induction k as [|k IH]; intros s Hc Hp.
  - cbn. unfold window. cbn. repeat split; auto; lia.
  - cbn [read_chunks]. rewrite next_at_cursor by lia.
    set (len := Z.min (chunkSize s) (file_size (file s) - progress s)).
    set (blob := window (file s) (progress s) len).
    cbn [onloadend].
    set (s1 := {| file := file s; chunkSize := chunkSize s;
                  progress := progress s + Z.of_nat (List.length blob) |}).
    specialize (IH s1 Hc ltac:(cbn; lia)).
    destruct (read_chunks k s1) as [rest s2].
    destruct IH as (D & P & F & C & L & A).
    cbn [file chunkSize progress s1] in D, P, F, C, A.
    assert (Hblob : Z.of_nat (List.length blob) <= chunkSize s).
    { subst blob. unfold window. rewrite length_firstn. lia. }
    repeat split; auto.
    + unfold chunks_data in *. cbn [flat_map data]. rewrite D.
      subst blob len. unfold window, file_size.
      set (l := content (file s)).
      rewrite length_firstn, length_skipn.
      destruct (Z.le_gt_cases (chunkSize s)
                  (Z.of_nat (List.length l) - progress s)) as [Hin|Hout].
      * replace (Z.min (chunkSize s) (Z.of_nat (List.length l) - progress s))
          with (chunkSize s) by lia.
        replace (Z.to_nat (progress s
                   + Z.of_nat (Nat.min (Z.to_nat (chunkSize s))
                                 (List.length l - Z.to_nat (progress s)))))
          with (Z.to_nat (progress s) + Z.to_nat (chunkSize s))%nat by lia.
        rewrite <- skipn_skipn_add, firstn_app_skipn. f_equal. lia.
      * rewrite (firstn_all2 (n := Z.to_nat (Z.of_nat (S k) * chunkSize s)))
          by (rewrite length_skipn; nia).
        rewrite (firstn_all2
                   (n := Z.to_nat (Z.min (chunkSize s)
                            (Z.of_nat (List.length l) - progress s))))
          by (rewrite length_skipn; lia).
        rewrite (skipn_all2 (n := Z.to_nat (progress s + _)))
          by lia.
        now rewrite firstn_nil, app_nil_r.
    + unfold chunks_data in *. cbn [flat_map data]. rewrite P.
      rewrite length_app. lia.
    + cbn. now rewrite L.
Qed.

(** X4. Reading a file with [next()], offset absent, one chunk after
    the other from a new steamer: the chunks are consecutive and none
    is longer than [chunkSize]; [k] of them are the first
    [k * chunkSize] bytes of the file, the cursor stands after the
    last byte read, and once [k * chunkSize] reaches the size of the
    file they are the whole file and the cursor is its size. *)
Theorem sequential_reads_return_the_file :
  forall (win : Window) (f : File) (cs : option Z) (s : Steamer) (k : nat),
    Steamer_new win (Some f) cs = inr s ->
    0 < chunkSize s ->
    let '(chunks, s') := read_chunks k s in
    chunks_data chunks = window f 0 (Z.of_nat k * chunkSize s) /\
    progress s' = Z.min (Z.of_nat k * chunkSize s) (file_size f) /\
    Forall (fun c => chunk_size c = Z.of_nat (List.length (data c))
                     /\ chunk_size c <= chunkSize s) chunks /\
    (file_size f <= Z.of_nat k * chunkSize s ->
     chunks_data chunks = content f /\ progress s' = file_size f /\
     next s' Undefined = Some []).
Proof.
  intros win f cs s k Hnew Hc.
  assert (Hs : file s = f /\ progress s = 0).
  { unfold Steamer_new in Hnew. revert Hnew. split_match; try discriminate;
      intros [= <-]; auto. }
  destruct Hs as (Hf & Hp).
  pose proof (read_chunks_from_cursor k s Hc ltac:(lia)) as H.
  destruct (read_chunks k s) as [chunks s'].
  destruct H as (D & P & F & C & L & A).
  rewrite Hf, Hp in D. rewrite Hp in P.
  assert (Hlen : Z.of_nat (List.length (chunks_data chunks))
                 = Z.min (Z.of_nat k * chunkSize s) (file_size f)).
  { rewrite D. unfold window, file_size. cbn [Z.to_nat skipn].
    rewrite length_firstn. nia. }
  split; [exact D|]. split; [lia|]. split; [exact A|].
  intros Hall.
  assert (Hd : chunks_data chunks = content f).
  { rewrite D. unfold window. cbn [Z.to_nat skipn].
    apply firstn_all2. unfold file_size in Hall. lia. }
  split; [exact Hd|]. split; [lia|].
  rewrite next_at_cursor by lia. rewrite F, Hf. f_equal.
  unfold window. rewrite skipn_all2 by (unfold file_size in *; lia).
  apply firstn_nil.
Qed.

Lemma sequential_reads_return_the_file_witness :
  let '(chunks, s') :=
    read_chunks 2 {| file := file26; chunkSize := 16; progress := 0 |} in
  chunks_data chunks = content file26 /\ progress s' = 26 /\
  map chunk_size chunks = [16; 10].
Proof.
  pose proof (sequential_reads_return_the_file window_ok file26 (Some 16)
                {| file := file26; chunkSize := 16; progress := 0 |} 2
                eq_refl ltac:(cbn; lia)) as H.
  cbv beta iota zeta delta [read_chunks] in H |- *.
  destruct H as (_ & _ & _ & H).
  destruct (H ltac:(cbn; lia)) as (A & B & _).
  split; [exact A|]. split; [exact B | reflexivity].
Defined.

(* ================================================================== *)
(** ** The first request of a session *)

(** X7. Once the session is negotiated, the first request sent is a
    concrete one, never a probe: it goes to the URI negotiated, its
    range is [bytes 0-<len - 1>/<size>] and its body the first [len]
    bytes of the file, with [len] the smaller of [chunkSize] and the
    size of the file.  For a file with no byte this is a request with
    an empty body and the range [bytes 0--1/0]. *)
Theorem first_request_is_concrete :
  forall (win : Window) (f : File) (cs : option Z) (w : World)
         (settled : Settled SessionResponse) (uri : option string),
    run_chunked win (Some f) cs = inr w ->
    getSessionUri settled = inr uri ->
    0 <= chunkSize (steamer (upload w)) ->
    let len := Z.min (chunkSize (steamer (upload w))) (file_size f) in
    let r := concrete_range 0 (len - 1) (file_size f) in
    let w1 := finish_read (step (SessionSettled 0 settled) w) in
    puts w1
      = [{| range := r; url := uri;
            options :=
              {| method := "put"; mode := "cors";
                 headers := base_headers ++
                   [("Content-Length", HNum len);
                    ("Content-Type", HStr (type f));
                    ("Content-Range", HStr r)];
                 body := Some (window f 0 len) |} |}] /\
    includes "*" r = false /\
    pending w1 = [TPut Undefined] /\
    calls w1 = [].
Proof.
  intros win f cs w settled uri Hrun Hs Hc len r w1.
  assert (Hw : exists s, w = {| upload := Upload_new (file_size f) (type f) s;
                               calls := []; puts := [];
                               pending := [TSession] |}
                         /\ file s = f /\ progress s = 0).
  { unfold run_chunked in Hrun.
    destruct (Steamer_new win (Some f) cs) as [e|s] eqn:Hn; [discriminate|].
    injection Hrun as <-. exists s. split; [reflexivity|].
    unfold Steamer_new in Hn. revert Hn.
    split_match; try discriminate; intros [= <-]; auto. }
  destruct Hw as (s & -> & Hf & Hp). cbn [upload Upload_new steamer] in *.
  set (w0 := step _ _) in w1.
  assert (Hw0 : pending w0 = [TRead Undefined (window f 0 len)] /\
                puts w0 = [] /\ calls w0 = [] /\
                size (upload w0) = file_size f /\
                contentType (upload w0) = type f /\
                sessionUri (upload w0) = uri).
  { subst w0. cbn [step pending nth_error]. unfold run_then. rewrite Hs.
    rewrite doUpload_reads by now left.
    cbn [pending await upload drop with_upload with_sessionUri steamer
         Upload_new start_offset firstn skipn app puts size calls
         contentType sessionUri].
    cbv zeta. rewrite Hf, Hp, slice_window by lia.
    subst len. replace (file_size f - 0) with (file_size f) by lia.
    repeat split; auto. }
  destruct Hw0 as (P0 & U0 & C0 & Z0 & T0 & S0). clearbody w0.
  destruct (finish_read_chunk Undefined _ w0 P0 (or_introl eq_refl))
    as (P1 & U1 & C1 & _).
  fold w1 in P1, U1, C1.
  assert (L : Z.of_nat (List.length (window f 0 len)) = len).
  { apply window_length; [lia|]. subst len.
    assert (0 <= file_size f) by (unfold file_size; lia). lia. }
  split.
  { rewrite U1, U0. unfold chunk_put. cbv zeta. cbn [app range_start].
    rewrite L, Z0, T0, S0. reflexivity. }
  split; [apply concrete_range_no_star|].
  split; [exact P1 | congruence].
Qed.

Lemma first_request_is_concrete_witness :
  run window_ok (Some file0)
    = inr {| upload := Upload_new 0 "text/plain"
                         {| file := file0; chunkSize := DEFAULT_CHUNK_SIZE;
                            progress := 0 |};
             calls := []; puts := []; pending := [TSession] |} /\
  map (fun p => (range p, body (options p)))
      (puts (finish_read
               (step (SessionSettled 0 session_ok)
                  {| upload := Upload_new 0 "text/plain"
                                 {| file := file0;
                                    chunkSize := DEFAULT_CHUNK_SIZE;
                                    progress := 0 |};
                     calls := []; puts := []; pending := [TSession] |})))
  = [("bytes 0--1/0", Some [])].
Proof.
  split; [reflexivity|].
  pose proof (first_request_is_concrete window_ok file0 None _ session_ok _
                eq_refl eq_refl ltac:(cbn; lia)) as (H & _).
  refine (eq_trans (f_equal (map _) H) _). reflexivity.
Defined.

(* ================================================================== *)
(** ** Completion while paused *)

Lemma pause_in_progress w :
  currentState (upload w) = INPROGRESS ->
  currentState (upload (pause w)) = PAUSE.
Proof.
  intros Hs.
  destruct (flags_inv _ _ _ _ (set_pause_flags true w)) as (D & C & P).
  unfold pause, currentState in *. rewrite D, C, P.
  revert Hs. split_match; congruence.
Qed.

Lemma resume_paused w :
  currentState (upload w) = PAUSE ->
  currentState (upload (resume w)) = INPROGRESS.
Proof.
  intros Hs. unfold resume. rewrite doUpload_upload.
  destruct (flags_inv _ _ _ _ (set_pause_flags false w)) as (D & C & P).
  unfold currentState in *. rewrite D, C, P.
  revert Hs. split_match; congruence.
Qed.

Lemma set_pause_false_calls w : calls (set_pause false w) = calls w.
Proof. unfold set_pause. split_match; try reflexivity. discriminate. Qed.

(** X8. Pausing does not abort the request in flight, but its answer is
    lost: when the server answers 200 while the upload is paused, the
    upload is not marked done and the done listener is not called;
    the status stays Paused and nothing is in flight.  [resume()] then
    sends a probe, and it is the 200 answer to the probe that marks
    the upload done and calls the done listener, once. *)
Theorem completion_while_paused_waits_for_resume :
  forall (w : World) (offset : Offset) (cb : Listener)
         (h h' : option string),
    pending w = [TPut offset] ->
    currentState (upload w) = INPROGRESS ->
    _ondone (upload w) = Some cb ->
    let w1 := step (PutSettled 0 (answer 200 h)) (pause w) in
    let w2 := resume w1 in
    let w3 := step (PutSettled 0 (answer 200 h')) w2 in
    currentState (upload w1) = PAUSE /\
    _done (state (upload w1)) = false /\
    pending w1 = [] /\ puts w1 = puts w /\ calls w1 = calls (pause w) /\
    currentState (upload w2) = INPROGRESS /\
    puts w2 = puts w ++ [probe (upload w)] /\
    pending w2 = [TPut RESUME_OFFSET] /\
    currentState (upload w3) = DONE /\
    calls w3 = calls (pause w) ++ [OnDone cb None] /\
    puts w3 = puts w2 /\ pending w3 = [].
Proof.
  intros w offset cb h h' Hp Hs Hl w1 w2 w3.
  destruct (set_pause_frame true w)
    as ((Pu & Pp & Pz & _ & _ & Pi) & Pl).
  fold (pause w) in Pu, Pp, Pz, Pi, Pl.
  pose proof (pause_in_progress w Hs) as Spause.
  assert (Hni : Status_eqb (currentState (upload (pause w))) INPROGRESS
                = false) by now rewrite Spause.
  rewrite <- Pp in Hp.
  destruct (put_settled_terminal 0 (answer 200 h) offset (pause w) Hni
              ltac:(now rewrite Hp)) as (U1 & P1 & E1).
  specialize (E1 _ ReplyDone eq_refl eq_refl).
  fold w1 in U1, P1, E1.
  assert (S1 : currentState (upload w1) = PAUSE) by (now rewrite E1).
  assert (P1' : pending w1 = []).
  { rewrite P1. cbn [pending drop]. now rewrite Hp. }
  split; [exact S1|].
  split.
  { unfold currentState in S1. revert S1. split_match; congruence. }
  split; [exact P1'|]. split; [congruence|].
  split; [now rewrite E1|].
  pose proof (resume_paused w1 S1) as S2. fold w2 in S2.
  destruct (set_pause_frame false w1)
    as ((Ru & Rp & Rz & _ & _ & Ri) & Rl).
  assert (U2 : puts w2 = puts w ++ [probe (upload w)]).
  { subst w2. unfold resume. rewrite doUpload_resume.
    cbn [puts await sent]. rewrite Ru, U1, Pu. f_equal. f_equal.
    unfold probe. rewrite Rz, Ri, E1.
    change (upload (drop 0 (pause w))) with (upload (pause w)).
    now rewrite Pz, Pi. }
  assert (P2 : pending w2 = [TPut RESUME_OFFSET]).
  { subst w2. unfold resume. rewrite doUpload_resume.
    cbn [pending await sent]. now rewrite Rp, P1'. }
  split; [exact S2|]. split; [exact U2|]. split; [exact P2|].
  destruct (done_round RESUME_OFFSET 200 h' w2 P2 S2 (or_introl eq_refl))
    as (E3 & P3 & U3 & S3 & _).
  fold w3 in E3, P3, U3, S3.
  split; [exact S3|].
  split; [|split; assumption].
  assert (L2 : _ondone (upload (drop 0 w2)) = Some cb).
  { change (upload (drop 0 w2)) with (upload w2).
    subst w2. unfold resume. rewrite doUpload_upload.
    pose proof (Rl KDone) as R. pose proof (Pl KDone) as P.
    cbn [listener] in R, P. rewrite R, E1.
    change (upload (drop 0 (pause w))) with (upload (pause w)).
    rewrite P. exact Hl. }
  assert (C2 : calls w2 = calls (pause w)).
  { subst w2. unfold resume.
    rewrite doUpload_calls, set_pause_false_calls, E1. reflexivity. }
  rewrite E3. unfold set_done. cbn [negb].
  cbn [upload with_upload with_state _ondone] .
  change (_ondone (with_state ?f ?u)) with (_ondone u).
  rewrite L2. cbn [calls call with_upload drop]. now rewrite C2.
Qed.

Lemma completion_while_paused_waits_for_resume_witness :
  let w1 := step (PutSettled 0 (answer 200 None)) (pause sending26) in
  let w3 := step (PutSettled 0 (answer 200 None)) (resume w1) in
  currentState (upload w1) = PAUSE /\ calls w1 = [] /\
  currentState (upload w3) = DONE /\ calls w3 = [OnDone 3%nat None].
Proof.
  pose proof (completion_while_paused_waits_for_resume sending26 Undefined
                3%nat None None eq_refl eq_refl eq_refl) as H.
  cbv zeta in H |- *.
  destruct H as (A & _ & _ & _ & B & _ & _ & _ & C & D & _).
  split; [exact A|]. split; [exact B|]. split; [exact C | exact D].
Defined.

(* ================================================================== *)
(** ** An acknowledgement of byte 0 *)

Lemma error_calls_app_error w w' cb e :
  calls w' = calls w ++ [OnError cb e] ->
  error_calls w' = error_calls w ++ [e] /\
  progress_calls w' = progress_calls w.
Proof.
  intros H. unfold error_calls, progress_calls. rewrite H, !flat_map_app.
  cbn. now rewrite app_nil_r.
Qed.

Lemma ack_zero_round offset cb w :
  pending w = [TPut offset] ->
  currentState (upload w) = INPROGRESS ->
  _onerror (upload w) = Some cb ->
  let w1 := step (PutSettled 0 (ack 0)) w in
  pending w1 = [TPut RESUME_OFFSET] /\
  currentState (upload w1) = INPROGRESS /\
  _onerror (upload w1) = Some cb /\
  error_calls w1 = error_calls w ++ [ErrUnexpected] /\
  progress_calls w1 = progress_calls w /\
  puts w1 = puts w ++ [probe (upload w)] /\
  probe (upload w1) = probe (upload w).
Proof.
  intros Hp Hs Hl w1.
  assert (Ht : thrown (ack 0) = Some ErrUnexpected).
  { unfold thrown, ack, answer. now rewrite uploadChunk_then_ack by lia. }
  pose proof (thrown_round offset _ _ w Hp Hs Ht) as E. fold w1 in E.
  pose proof (catch_round ErrUnexpected (drop 0 w) Hs) as H.
  cbv zeta in H. rewrite <- E in H.
  destruct H as (E' & Hsig & Hputs & Hpend & Hst).
  unfold error_signalled in Hsig.
  change (upload (drop 0 w)) with (upload w) in Hsig, Hputs.
  rewrite Hl in Hsig. destruct Hsig as (Hc & _).
  change (calls (drop 0 w)) with (calls w) in Hc.
  change (puts (drop 0 w)) with (puts w) in Hputs.
  cbn [pending drop] in Hpend. rewrite Hp in Hpend.
  destruct (error_calls_app_error _ _ _ _ Hc) as (Ee & Ep).
  destruct (set_error_frame ErrUnexpected (drop 0 w))
    as ((_ & _ & Ez & _ & _ & Ei) & El).
  assert (Eu : upload w1 = upload (set_error ErrUnexpected (drop 0 w)))
    by (rewrite E'; apply doUpload_upload).
  repeat split; auto.
  - rewrite Eu. pose proof (El KError) as L. cbn [listener] in L.
    rewrite L. exact Hl.
  - unfold probe. rewrite Eu, Ez, Ei. reflexivity.
Qed.

(** X10. An acknowledgement that names byte 0 as the last byte stored
    ([Range: bytes 0-0]) is never taken as progress: the offset 0
    fails the test made on the answer, so it is the error
    ['Unexpected response'], signalled and followed by a probe.  As
    long as the server repeats that answer the upload stays in
    progress, with one more error signal and one more probe each
    time, and no progress signal. *)
Theorem acknowledgement_of_byte_zero_is_an_error :
  forall (k : nat) (w : World) (offset : Offset) (cb : Listener),
    pending w = [TPut offset] ->
    currentState (upload w) = INPROGRESS ->
    _onerror (upload w) = Some cb ->
    let w1 := serve (repeat (ack 0) k) w in
    currentState (upload w1) = INPROGRESS /\
    error_calls w1 = error_calls w ++ repeat ErrUnexpected k /\
    progress_calls w1 = progress_calls w /\
    puts w1 = puts w ++ repeat (probe (upload w)) k /\
    (exists o, pending w1 = [TPut o]).
Proof.
  induction k as [|k IH]; intros w offset cb Hp Hs Hl; cbv zeta.
  - cbn [repeat serve]. rewrite (finish_read_put _ _ Hp), !app_nil_r.
    repeat split; auto. now exists offset.
  - cbn [repeat serve]. rewrite (finish_read_put _ _ Hp).
    pose proof (ack_zero_round offset cb w Hp Hs Hl) as H. cbv zeta in H.
    destruct H as (P1 & S1 & L1 & E1 & G1 & U1 & B1).
    pose proof (IH _ RESUME_OFFSET cb P1 S1 L1) as H. cbv zeta in H.
    destruct H as (S2 & E2 & G2 & U2 & P2).
    split; [exact S2|].
    split; [rewrite E2, E1, <- app_assoc; reflexivity|].
    split; [congruence|].
    split; [rewrite U2, U1, B1, <- app_assoc; reflexivity | exact P2].
Qed.

Lemma acknowledgement_of_byte_zero_is_an_error_witness :
  let w1 := serve [ack 0; ack 0; ack 0] sending26 in
  currentState (upload w1) = INPROGRESS /\
  error_calls w1 = [ErrUnexpected; ErrUnexpected; ErrUnexpected] /\
  progress_calls w1 = [] /\
  List.length (puts w1) = 4%nat.
Proof.
  pose proof (acknowledgement_of_byte_zero_is_an_error 3 sending26 Undefined
                2%nat eq_refl eq_refl eq_refl) as H.
  cbv zeta in H |- *. destruct H as (A & B & C & D & _).
  split; [exact A|]. split; [exact B|]. split; [exact C|].
  exact (f_equal (@List.length Put) D).
Defined.

(* ================================================================== *)
(** ** What a turn of the loop sends and starts *)

Lemma same_transfer_requests w w' : same_transfer w w' -> same_requests w w'.
Proof. intros (A & B & _ & _ & _ & C). now repeat split. Qed.

Lemma same_requests_grows w w' : same_requests w w' -> grows w w'.
Proof.
  intros (A & B & C). split; [exact C|]. exists [], [].
  rewrite !app_nil_r. repeat split; auto.
Qed.

Lemma same_then_grows w w1 w2 :
  same_requests w w1 -> grows w1 w2 -> grows w w2.
Proof.
  intros (A & B & C) (D & new & ts & E & F & G & H & I).
  split; [congruence|]. exists new, ts.
  rewrite E, F, A, B. repeat split; auto.
  rewrite <- C. exact I.
Qed.

Lemma uploadChunk_well_formed chunk ct r uri opts :
  (forall c, chunk = Some c -> chunk_size c = Z.of_nat (List.length (data c))) ->
  uploadChunk chunk ct r = inr opts ->
  well_formed {| range := r; url := uri; options := opts |}.
Proof.
  intros Hc. unfold uploadChunk, well_formed. cbn [range options].
  destruct (includes "*" r) eqn:Hi; cbn [negb].
  - intros [= <-]. cbn. split; [reflexivity|]. split; [reflexivity|].
    left. auto.
  - destruct chunk as [c|]; [|discriminate]. intros [= <-]. cbn.
    repeat split; auto. right. split; [reflexivity|].
    exists (data c), ct. now rewrite (Hc c eq_refl).
Qed.

Lemma send_grows offset chunk w :
  (forall c, chunk = Some c -> chunk_size c = Z.of_nat (List.length (data c))) ->
  grows w (send offset chunk w).
Proof.
  intros Hc. unfold send.
  destruct (range_of offset chunk (size (upload w))) as [e|r].
  { split; [reflexivity|]. exists [], [TThrown e]. cbn.
    rewrite app_nil_r. repeat split; auto. intros [H|[]]; discriminate. }
  destruct (uploadChunk chunk (contentType (upload w)) r) as [e|opts] eqn:Hu.
  { split; [reflexivity|]. exists [], [TThrown e]. cbn.
    rewrite app_nil_r. repeat split; auto. intros [H|[]]; discriminate. }
  split; [reflexivity|].
  exists [{| range := r; url := sessionUri (upload w); options := opts |}],
         [TPut offset].
  cbn. repeat split; auto.
  - intros [H|[]]; discriminate.
  - constructor; [|constructor]. split; [|reflexivity].
    exact (uploadChunk_well_formed chunk _ _ _ _ Hc Hu).
Qed.

Lemma doUpload_grows offset w : grows w (doUpload offset w).
Proof.
  unfold doUpload. destruct (next (steamer (upload w)) offset) as [blob|].
  - split; [reflexivity|]. exists [], [TRead offset blob]. cbn.
    rewrite app_nil_r. repeat split; auto. intros [H|[]]; discriminate.
  - apply send_grows. intros c; discriminate.
Qed.

Lemma doUpload_catch_grows e w : grows w (doUpload_catch e w).
Proof.
  pose proof (same_transfer_requests _ _ (proj1 (set_error_frame e w))) as S.
  unfold doUpload_catch. split_match.
  - eapply same_then_grows; [exact S | apply doUpload_grows].
  - now apply same_requests_grows.
Qed.

Lemma doUpload_then_grows offset r w : grows w (doUpload_then offset r w).
Proof.
  unfold doUpload_then. split_match.
  - apply same_requests_grows. now repeat split.
  - apply same_requests_grows, same_transfer_requests.
    apply (proj1 (set_done_frame true w)).
  - eapply same_then_grows; [|apply doUpload_grows].
    apply same_transfer_requests, (proj1 (set_progress_frame offset w)).
  - apply doUpload_catch_grows.
Qed.

Lemma put_settled_grows offset settled w : grows w (put_settled offset settled w).
Proof.
  unfold put_settled. split_match;
    [apply doUpload_catch_grows | apply doUpload_then_grows
     | apply doUpload_catch_grows].
Qed.

Lemma load_end_grows offset blob w : grows w (load_end offset blob w).
Proof.
  unfold load_end, onloadend.
  eapply same_then_grows; [|apply send_grows].
  - now repeat split.
  - intros c [= <-]. reflexivity.
Qed.

Lemma read_error_grows loaded w : grows w (read_error loaded w).
Proof.
  unfold read_error.
  eapply same_then_grows; [|apply doUpload_catch_grows]. now repeat split.
Qed.

Lemma resume_grows w : grows w (resume w).
Proof.
  unfold resume. eapply same_then_grows; [|apply doUpload_grows].
  apply same_transfer_requests, (proj1 (set_pause_frame false w)).
Qed.

(** The settlement of the session request sends nothing and starts at
    most one read. *)
Lemma run_then_starts settled w :
  puts (run_then settled w) = puts w /\
  exists ts, pending (run_then settled w) = pending w ++ ts /\
             (List.length ts <= 1)%nat /\ ~ In TSession ts.
Proof.
  unfold run_then. destruct (getSessionUri settled) as [e|uri].
  - destruct (set_error_frame e w) as ((A & B & _) & _).
    split; [exact A|]. exists []. rewrite app_nil_r. auto.
  - rewrite doUpload_reads by now left. cbn. split; [reflexivity|].
    eexists [_]. repeat split; auto. intros [H|[]]; discriminate.
Qed.

(** The cases of a turn. *)
Lemma step_cases ev w :
  step ev w = w \/
  same_requests w (step ev w) \/
  (ev = CallResume /\ grows w (step ev w)) \/
  (exists i t, nth_error (pending w) i = Some t /\
     ((t <> TSession /\ grows (drop i w) (step ev w)) \/
      (t = TSession /\ exists settled,
         step ev w = run_then settled (drop i w)))).
Proof.
  destruct ev; cbn [step].
  - destruct (nth_error (pending w) i) as [[]|] eqn:Hn; auto.
    right; right; right. exists i, TSession. split; [exact Hn|].
    right. split; [reflexivity|]. now exists settled.
  - destruct (nth_error (pending w) i) as [[]|] eqn:Hn; auto.
    right; right; right. eexists i, _. split; [exact Hn|].
    left. split; [discriminate | apply load_end_grows].
  - destruct (nth_error (pending w) i) as [[]|] eqn:Hn; auto.
    right; right; right. eexists i, _. split; [exact Hn|].
    left. split; [discriminate | apply read_error_grows].
  - destruct (nth_error (pending w) i) as [[]|] eqn:Hn; auto.
    right; right; right. eexists i, _. split; [exact Hn|].
    left. split; [discriminate | apply put_settled_grows].
  - destruct (nth_error (pending w) i) as [[]|] eqn:Hn; auto.
    right; right; right. eexists i, _. split; [exact Hn|].
    left. split; [discriminate | apply doUpload_catch_grows].
  - right; left. apply same_transfer_requests, (proj1 (set_cancel_frame true w)).
  - right; left. apply same_transfer_requests, (proj1 (set_done_frame true w)).
  - right; left. apply same_transfer_requests, (proj1 (set_pause_frame true w)).
  - right; right; left. split; [reflexivity | apply resume_grows].
  - right; left. apply same_transfer_requests, (proj1 (attach_frame k cb w)).
Qed.

Lemma step_well_formed ev w :
  Forall well_formed (puts w) -> Forall well_formed (puts (step ev w)).
Proof.
  intros H.
  assert (G : forall w0, puts w0 = puts w -> grows w0 (step ev w) ->
                         Forall well_formed (puts (step ev w))).
  { intros w0 E (_ & new & ts & A & _ & _ & _ & F).
    rewrite A, E. apply Forall_app. split; [exact H|].
    eapply Forall_impl; [|exact F]. now intros p (Hp & _). }
  destruct (step_cases ev w)
    as [-> | [(A & _) | [(_ & Hg) | (i & t & Hn & [(_ & Hg) | (_ & s & E)])]]].
  - exact H.
  - now rewrite A.
  - now apply (G w).
  - now apply (G (drop i w)).
  - rewrite E. destruct (run_then_starts s (drop i w)) as (A & _).
    now rewrite A.
Qed.

(** X5. Every request an upload has sent, whatever has happened to it
    (answers, failures, pause, resume, cancel, listeners coming late),
    is a PUT in CORS mode that is either a probe, with a star in its
    range, no body and no header but the CORS one, or a request with a
    body whose Content-Length is the length of that body and whose
    Content-Range is its range.  A body never travels with a probe. *)
Theorem every_request_is_probe_or_sized_chunk :
  forall (win : Window) (f : option File) (cs : option Z) (w : World)
         (evs : list Event),
    run_chunked win f cs = inr w ->
    Forall well_formed (puts (steps evs w)).
Proof.
  intros win f cs w evs Hrun.
  assert (H0 : Forall well_formed (puts w)).
  { unfold run_chunked in Hrun. revert Hrun.
    split_match; try discriminate; intros [= <-]; constructor. }
  clear Hrun. revert w H0.
  induction evs as [|ev evs IH]; intros w H0; [exact H0|].
  change (steps (ev :: evs) w) with (steps evs (step ev w)).
  apply IH, step_well_formed, H0.
Qed.

Lemma every_request_is_probe_or_sized_chunk_witness :
  Forall well_formed
    (puts (steps [SessionSettled 0 session_ok; LoadEnd 0; CallPause;
                  CallResume; PutSettled 0 (ack 15); PutSettled 0 Rejected;
                  LoadEnd 0; CallCancel]
             world26)) /\
  List.length
    (puts (steps [SessionSettled 0 session_ok; LoadEnd 0; CallPause;
                  CallResume; PutSettled 0 (ack 15); PutSettled 0 Rejected;
                  LoadEnd 0; CallCancel]
             world26)) = 4%nat.
Proof.
  split; [|reflexivity].
  exact (every_request_is_probe_or_sized_chunk window_ok (Some file26)
           (Some 16) world26 _ eq_refl).
Defined.

Lemma drop_single {i t} w :
  (List.length (pending w) <= 1)%nat ->
  nth_error (pending w) i = Some t ->
  pending w = [t] /\ pending (drop i w) = [].
Proof.
  intros Hl Hn. cbn [pending drop].
  destruct (pending w) as [|x [|y l]]; cbn in Hl; try lia.
  - destruct i; discriminate.
  - destruct i as [|i]; cbn in Hn; [|destruct i; discriminate].
    injection Hn as ->. auto.
Qed.

Lemma step_sequential ev w :
  ev <> CallResume -> sequential w -> sequential (step ev w).
Proof.
  intros Hev (Hl & Hs & Hu).
  destruct (step_cases ev w)
    as [-> | [(A & B & C) | [(E & _) | (i & t & Hn & Hc)]]].
  - now repeat split.
  - unfold sequential. now rewrite A, B, C.
  - contradiction.
  - destruct (drop_single w Hl Hn) as (Hp & Hd).
    destruct Hc as [(Ht & (C & new & ts & A & B & L & N & F))
                   | (-> & s & E)].
    + change (upload (drop i w)) with (upload w) in C, F.
      change (puts (drop i w)) with (puts w) in A.
      rewrite Hd in B. cbn [app] in B.
      unfold sequential. rewrite A, B, C. repeat split; auto.
      * intros Hin. contradiction.
      * apply Forall_app. split; [exact Hu|].
        eapply Forall_impl; [|exact F]. now intros p (_ & Hp').
    + destruct (run_then_starts s (drop i w)) as (A & ts & B & L & N).
      change (puts (drop i w)) with (puts w) in A.
      rewrite Hd in B. cbn [app] in B.
      assert (P0 : puts w = []) by (apply Hs; rewrite Hp; now left).
      unfold sequential. rewrite E, A, B, P0. repeat split; auto.
Qed.

(** X6. As long as [resume()] is not called the loop is sequential:
    whatever else happens, at most one operation (the session request,
    a read or a chunk request) is in flight at any time, nothing is
    sent before the session request has settled, and every request
    goes to the session URI. *)
Theorem one_operation_in_flight_without_resume :
  forall (win : Window) (f : option File) (cs : option Z) (w : World)
         (evs : list Event),
    run_chunked win f cs = inr w ->
    ~ In CallResume evs ->
    sequential (steps evs w).
Proof.
  intros win f cs w evs Hrun.
  assert (H0 : sequential w).
  { unfold run_chunked in Hrun. revert Hrun.
    split_match; try discriminate; intros [= <-].
    unfold sequential; cbn. repeat split; auto. }
  clear Hrun. revert w H0.
  induction evs as [|ev evs IH]; intros w H0 Hin; [exact H0|].
  change (steps (ev :: evs) w) with (steps evs (step ev w)).
  apply IH.
  - apply step_sequential; [|exact H0]. intros ->. apply Hin. now left.
  - intros H. apply Hin. now right.
Qed.

Lemma one_operation_in_flight_without_resume_witness :
  let w := steps [SessionSettled 0 session_ok; LoadEnd 0;
                  PutSettled 0 (ack 15); CallCancel; LoadEnd 0]
             world26 in
  sequential w /\
  pending w = [TPut (Num 15)] /\
  map url (puts w)
    = [Some "https://storage.test/session";
       Some "https://storage.test/session"].
Proof.
  cbv zeta. split; [|split; reflexivity].
  apply (one_operation_in_flight_without_resume window_ok (Some file26)
           (Some 16) world26 _ eq_refl).
  cbn. intros [H|[H|[H|[H|[H|[]]]]]]; discriminate.
Defined.

(* ================================================================== *)
(** ** What a turn of the loop lets the caller observe *)

Lemma obs_inv w1 w :
  obs w1 = obs w ->
  eventQueue (upload w1) = eventQueue (upload w) /\
  state (upload w1) = state (upload w) /\
  calls w1 = calls w /\
  _onprogress (upload w1) = _onprogress (upload w) /\
  _onerror (upload w1) = _onerror (upload w) /\
  _ondone (upload w1) = _ondone (upload w) /\
  _oncancel (upload w1) = _oncancel (upload w) /\
  _onpause (upload w1) = _onpause (upload w).
Proof. unfold obs. intros [= -> -> -> -> -> -> -> ->]. now repeat split. Qed.

Lemma set_progress_obs o w1 w :
  obs w1 = obs w -> obs (set_progress o w1) = obs (set_progress o w).
Proof. obs_congruence. Qed.

Lemma set_error_obs e w1 w :
  obs w1 = obs w -> obs (set_error e w1) = obs (set_error e w).
Proof. obs_congruence. Qed.

Lemma set_done_obs b w1 w :
  obs w1 = obs w -> obs (set_done b w1) = obs (set_done b w).
Proof. obs_congruence. Qed.

Lemma doUpload_obs o w : obs (doUpload o w) = obs w.
Proof. unfold obs. now rewrite doUpload_upload, doUpload_calls. Qed.

Lemma send_obs o c w : obs (send o c w) = obs w.
Proof. unfold obs. now rewrite send_upload, send_calls. Qed.

Lemma obs_status w1 w :
  obs w1 = obs w -> currentState (upload w1) = currentState (upload w).
Proof. intros H. apply obs_inv in H. now apply state_status. Qed.

Lemma doUpload_catch_obs e w1 w :
  obs w1 = obs w -> obs (doUpload_catch e w1) = obs (set_error e w).
Proof.
  intros H. unfold doUpload_catch. split_match;
    rewrite ?doUpload_obs; now apply set_error_obs.
Qed.

(** What a turn does to the observable part: nothing, or what one
    setter or one listener registration does; [done] is set by the
    loop only while the upload is in progress. *)
Lemma step_obs ev w :
  obs (step ev w) = obs w \/
  (exists e, obs (step ev w) = obs (set_error e w)) \/
  (exists o, obs (step ev w) = obs (set_progress o w)) \/
  (obs (step ev w) = obs (set_done true w) /\
   (ev = CallDone \/ currentState (upload w) = INPROGRESS)) \/
  obs (step ev w) = obs (set_cancel true w) \/
  (exists b, obs (step ev w) = obs (set_pause b w)) \/
  (exists k cb, obs (step ev w) = obs (attach k cb w)).
Proof.
  assert (Hcatch : forall e w1, obs w1 = obs w ->
            exists e', obs (doUpload_catch e w1) = obs (set_error e' w))
    by (intros e w1 H; exists e; now apply doUpload_catch_obs).
  destruct ev; cbn [step].
  - destruct (nth_error (pending w) i) as [[]|]; auto.
    unfold run_then. destruct (getSessionUri settled) as [e|uri].
    + right; left. exists e. now apply set_error_obs.
    + left. now rewrite doUpload_obs.
  - destruct (nth_error (pending w) i) as [[]|]; auto.
    left. unfold load_end, onloadend. now rewrite send_obs.
  - destruct (nth_error (pending w) i) as [[]|]; auto.
    right; left. unfold read_error. now apply Hcatch.
  - destruct (nth_error (pending w) i) as [[]|]; auto.
    unfold put_settled.
    destruct settled as [response|]; [|right; left; now apply Hcatch].
    destruct (uploadChunk_then response) as [e|reply];
      [right; left; now apply Hcatch|].
    unfold doUpload_then. change (upload (drop i w)) with (upload w).
    destruct (Status_eqb (currentState (upload w)) INPROGRESS) eqn:Hs;
      cbn [negb]; [|now left].
    assert (Hin : currentState (upload w) = INPROGRESS)
      by (destruct (currentState (upload w)); (reflexivity || discriminate)).
    destruct reply as [|o].
    + right; right; right; left. split; [now apply set_done_obs | now right].
    + destruct (truthy o); [|right; left; now apply Hcatch].
      right; right; left. exists offset.
      rewrite doUpload_obs. now apply set_progress_obs.
  - destruct (nth_error (pending w) i) as [[]|]; auto.
  - now right; right; right; right; left.
  - right; right; right; left. split; [reflexivity | now left].
  - right; right; right; right; right; left. now exists true.
  - right; right; right; right; right; left. exists false.
    unfold resume. now rewrite doUpload_obs.
  - right; right; right; right; right; right. now exists k, cb.
Qed.

(* ------------------------------------------------------------------ *)
(** *** Progress signals carry offsets *)

Lemma progress_sound_obs w1 w :
  obs w1 = obs w -> progress_sound w -> progress_sound w1.
Proof.
  intros H. apply obs_inv in H. destruct H as (Q & _ & C & _).
  unfold progress_sound, progress_calls. now rewrite Q, C.
Qed.

Lemma truthy_reportable o :
  negb (truthy o) || is_resume o = false -> reportable o.
Proof.
  destruct o as [|n| |]; cbn; try discriminate.
  destruct (Z.eqb_spec n 0); cbn; [discriminate|]. intros _. now exists n.
Qed.

Lemma flat_map_map_nil {A B C : Type} (f : B -> list C) (g : A -> B) l :
  (forall x, f (g x) = []) -> flat_map f (map g l) = [].
Proof. intros H. induction l as [|x l IH]; cbn; [|rewrite H]; auto. Qed.

Lemma flat_map_map_one {A B : Type} (f : B -> list A) (g : A -> B) l :
  (forall x, f (g x) = [x]) -> flat_map f (map g l) = l.
Proof.
  intros H. induction l as [|x l IH]; cbn; [|rewrite H, IH]; auto.
Qed.

Lemma set_progress_sound o w :
  progress_sound w -> progress_sound (set_progress o w).
Proof.
  intros (Hc & Hq). unfold set_progress.
  destruct (negb (truthy o) || is_resume o) eqn:Hr; [now split|].
  apply truthy_reportable in Hr.
  unfold progress_sound, progress_calls in *.
  destruct (_onprogress (upload w)); cbn.
  - rewrite flat_map_app. cbn. split; [|exact Hq].
    apply Forall_app. split; [exact Hc | now constructor].
  - split; [exact Hc|]. apply Forall_app. split; [exact Hq | now constructor].
Qed.

Lemma other_setters_progress w :
  (forall e, progress_calls (set_error e w) = progress_calls w /\
             onprogress (eventQueue (upload (set_error e w)))
             = onprogress (eventQueue (upload w))) /\
  (forall b, progress_calls (set_done b w) = progress_calls w /\
             onprogress (eventQueue (upload (set_done b w)))
             = onprogress (eventQueue (upload w))) /\
  (forall b, progress_calls (set_cancel b w) = progress_calls w /\
             onprogress (eventQueue (upload (set_cancel b w)))
             = onprogress (eventQueue (upload w))) /\
  (forall b, progress_calls (set_pause b w) = progress_calls w /\
             onprogress (eventQueue (upload (set_pause b w)))
             = onprogress (eventQueue (upload w))).
Proof.
  unfold progress_calls.
  repeat split; unfold set_error, set_done, set_cancel, set_pause;
    split_match; cbn; rewrite ?flat_map_app; cbn; rewrite ?app_nil_r;
    reflexivity.
Qed.

Lemma attach_progress_sound k cb w :
  progress_sound w -> progress_sound (attach k cb w).
Proof.
  intros (Hc & Hq). unfold progress_sound, progress_calls in *.
  rewrite attach_calls, flat_map_app.
  destruct (attach_other_queues k cb w) as (Eq & _).
  destruct k; cbn [queued_calls];
    try (rewrite flat_map_map_nil, app_nil_r by reflexivity;
         split; [exact Hc | rewrite Eq by discriminate; exact Hq]).
  rewrite flat_map_map_one by reflexivity.
  split; [apply Forall_app; now split|].
  pose proof (attach_empties KProgress cb cb w) as E.
  cbn [queued_calls] in E. apply map_eq_nil in E. rewrite E. constructor.
Qed.

Lemma step_progress_sound ev w :
  progress_sound w -> progress_sound (step ev w).
Proof.
  intros H.
  destruct (other_setters_progress w) as (He & Hd & Hc & Hp).
  destruct (step_obs ev w)
    as [E | [(e & E) | [(o & E) | [(E & _) | [E | [(b & E) | (k & cb & E)]]]]]];
    apply (progress_sound_obs _ _ E); auto.
  - destruct (He e) as (A & B). destruct H. split; [now rewrite A | now rewrite B].
  - now apply set_progress_sound.
  - destruct (Hd true) as (A & B). destruct H. split; [now rewrite A | now rewrite B].
  - destruct (Hc true) as (A & B). destruct H. split; [now rewrite A | now rewrite B].
  - destruct (Hp b) as (A & B). destruct H. split; [now rewrite A | now rewrite B].
  - now apply attach_progress_sound.
Qed.

(** X13. A progress signal always carries a byte offset: whatever
    happens to an upload, its progress listener is only ever called
    with a number other than zero, never with [undefined], [0], [NaN]
    or the resume marker, and only such numbers wait in the progress
    queue. *)
Theorem progress_signals_carry_nonzero_offsets :
  forall (win : Window) (f : option File) (cs : option Z) (w : World)
         (evs : list Event),
    run_chunked win f cs = inr w ->
    progress_sound (steps evs w).
Proof.
  intros win f cs w evs Hrun.
  assert (H0 : progress_sound w).
  { unfold run_chunked in Hrun. revert Hrun.
    split_match; try discriminate; intros [= <-]. split; constructor. }
  clear Hrun. revert w H0.
  induction evs as [|ev evs IH]; intros w H0; [exact H0|].
  change (steps (ev :: evs) w) with (steps evs (step ev w)).
  apply IH, step_progress_sound, H0.
Qed.

Lemma progress_signals_carry_nonzero_offsets_witness :
  let w := steps [SessionSettled 0 session_ok; LoadEnd 0;
                  PutSettled 0 (ack 15); LoadEnd 0;
                  PutSettled 0 (answer 503 None); PutSettled 0 (ack 20);
                  Attach KProgress 1%nat; LoadEnd 0; PutSettled 0 (ack 0)]
             world26 in
  progress_sound w /\ progress_calls w = [Num 15].
Proof.
  cbv zeta. split; [|reflexivity].
  exact (progress_signals_carry_nonzero_offsets window_ok (Some file26)
           (Some 16) world26 _ eq_refl).
Defined.

(* ------------------------------------------------------------------ *)
(** *** The done signal *)

Lemma done_once_obs w1 w : obs w1 = obs w -> done_once w -> done_once w1.
Proof.
  intros H. apply obs_inv in H. destruct H as (Q & S & C & _).
  unfold done_once, done_calls. now rewrite Q, S, C.
Qed.

Lemma other_setters_done w :
  (forall o, done_calls (set_progress o w) = done_calls w /\
             ondone (eventQueue (upload (set_progress o w)))
             = ondone (eventQueue (upload w)) /\
             _done (state (upload (set_progress o w)))
             = _done (state (upload w))) /\
  (forall e, done_calls (set_error e w) = done_calls w /\
             ondone (eventQueue (upload (set_error e w)))
             = ondone (eventQueue (upload w)) /\
             _done (state (upload (set_error e w)))
             = _done (state (upload w))) /\
  (forall b, done_calls (set_cancel b w) = done_calls w /\
             ondone (eventQueue (upload (set_cancel b w)))
             = ondone (eventQueue (upload w)) /\
             _done (state (upload (set_cancel b w)))
             = _done (state (upload w))) /\
  (forall b, done_calls (set_pause b w) = done_calls w /\
             ondone (eventQueue (upload (set_pause b w)))
             = ondone (eventQueue (upload w)) /\
             _done (state (upload (set_pause b w)))
             = _done (state (upload w))).
Proof.
  unfold done_calls.
  repeat split; unfold set_progress, set_error, set_cancel, set_pause;
    split_match; cbn; rewrite ?flat_map_app; cbn; rewrite ?app_nil_r;
    reflexivity.
Qed.

Lemma set_done_first w :
  _done (state (upload w)) = false -> done_calls w = [] ->
  ondone (eventQueue (upload w)) = [] ->
  done_once (set_done true w).
Proof.
  intros Hd Hc Hq. right. unfold done_calls in *.
  unfold set_done; cbn. destruct (_ondone (upload w)); cbn.
  - rewrite flat_map_app, Hc, Hq. cbn. auto.
  - rewrite Hc, Hq. cbn. auto.
Qed.

Lemma attach_done_once k cb w : done_once w -> done_once (attach k cb w).
Proof.
  destruct (attach_frame k cb w) as (_ & Es).
  destruct (attach_other_queues k cb w) as (_ & _ & Eq & _).
  unfold done_once, done_calls.
  rewrite attach_calls, flat_map_app, Es.
  destruct k; cbn [queued_calls];
    try (rewrite flat_map_map_nil, app_nil_r by reflexivity;
         rewrite Eq by discriminate; auto).
  pose proof (attach_empties KDone cb cb w) as E.
  cbn [queued_calls] in E. apply map_eq_nil in E. rewrite E.
  rewrite <- (map_map (@Some bool) (OnDone cb)), flat_map_map_one
    by reflexivity.
  intros [(D & C & Q) | (D & L)].
  - left. rewrite C, Q. auto.
  - right. split; [exact D|]. rewrite length_app, length_map. cbn. lia.
Qed.

Lemma step_done_once ev w :
  ev <> CallDone -> done_once w -> done_once (step ev w).
Proof.
  intros Hev H.
  destruct (other_setters_done w) as (Hp & He & Hc & Hs).
  assert (Same : forall w', done_calls w' = done_calls w /\
                   ondone (eventQueue (upload w'))
                   = ondone (eventQueue (upload w)) /\
                   _done (state (upload w')) = _done (state (upload w)) ->
                   done_once w').
  { intros w' (A & B & C). unfold done_once. now rewrite A, B, C. }
  destruct (step_obs ev w)
    as [E | [(e & E) | [(o & E) | [(E & G) | [E | [(b & E) | (k & cb & E)]]]]]];
    apply (done_once_obs _ _ E); auto.
  - destruct G as [-> | Hin]; [contradiction|].
    assert (Hd : _done (state (upload w)) = false).
    { unfold currentState in Hin. revert Hin. split_match; congruence. }
    destruct H as [(_ & C & Q) | (D & _)]; [|congruence].
    now apply set_done_first.
  - now apply attach_done_once.
Qed.

(** X11. The loop marks an upload done at most once: as long as the
    caller does not call [done()] itself, the done signal exists
    exactly when the done flag is set, and then exactly once, either
    delivered to the done listener or still waiting in its queue;
    attaching the listener moves it from the queue to the listener and
    never repeats it. *)
Theorem done_is_signalled_at_most_once :
  forall (win : Window) (f : option File) (cs : option Z) (w : World)
         (evs : list Event),
    run_chunked win f cs = inr w ->
    ~ In CallDone evs ->
    done_once (steps evs w).
Proof.
  intros win f cs w evs Hrun.
  assert (H0 : done_once w).
  { unfold run_chunked in Hrun. revert Hrun.
    split_match; try discriminate; intros [= <-]. left. now cbn. }
  clear Hrun. revert w H0.
  induction evs as [|ev evs IH]; intros w H0 Hin; [exact H0|].
  change (steps (ev :: evs) w) with (steps evs (step ev w)).
  apply IH.
  - apply step_done_once; [|exact H0]. intros ->. apply Hin. now left.
  - intros H. apply Hin. now right.
Qed.

Lemma done_is_signalled_at_most_once_witness :
  let w := steps [SessionSettled 0 session_ok; LoadEnd 0;
                  PutSettled 0 (answer 200 None); CallResume;
                  PutSettled 0 (answer 200 None); Attach KDone 3%nat;
                  Attach KDone 4%nat; CallCancel]
             world26 in
  done_once w /\ calls w = [OnDone 3%nat (Some true)].
Proof.
  cbv zeta. split; [|reflexivity].
  apply (done_is_signalled_at_most_once window_ok (Some file26) (Some 16)
           world26 _ eq_refl).
  cbn. intros [H|[H|[H|[H|[H|[H|[H|[H|[]]]]]]]]]; discriminate.
Defined.

(* ================================================================== *)
(** ** A whole upload *)











(* ================================================================== *)
(** ** Stopping while a chunk is being read *)




(* ================================================================== *)
(** ** Failures and the status *)

Lemma reply_done_status response :
  uploadChunk_then response = inr ReplyDone ->
  status response = 200 \/ status response = 201.
Proof.
  unfold uploadChunk_then.
  destruct (Z.eqb_spec (status response) 200); [auto|].
  destruct (Z.eqb_spec (status response) 201); [auto|]. cbn [orb].
  split_match; discriminate.
Qed.

Lemma set_progress_then_doUpload_flags o offset w :
  flags (upload (doUpload o (set_progress offset w))) = flags (upload w).
Proof. rewrite doUpload_upload. apply set_progress_flags. Qed.

(** X14. No failure ever changes the status of an upload: when the
    session request, a read or a chunk request settles, whatever the
    outcome (network failure, read error, any status, any header), the
    done, cancel and pause flags stay as they are, with one exception:
    an upload in progress becomes Done when a chunk request is
    answered 200 or 201.  There is no failed state; after an error the
    status still reads in progress. *)
Theorem only_completion_changes_the_status :
  forall (ev : Event) (w : World),
    (forall k cb, ev <> Attach k cb) ->
    ev <> CallCancel -> ev <> CallDone -> ev <> CallPause ->
    ev <> CallResume ->
    flags (upload (step ev w)) = flags (upload w) \/
    (currentState (upload w) = INPROGRESS /\
     currentState (upload (step ev w)) = DONE /\
     exists i response,
       ev = PutSettled i (Fulfilled response) /\
       (status response = 200 \/ status response = 201)).
Proof.
  intros ev w Ha Hc Hd Hp Hr.
  destruct ev; try congruence; cbn [step].
  - left. destruct (nth_error (pending w) i) as [[]|]; auto.
    unfold run_then. destruct (getSessionUri settled).
    + apply (set_error_flags _ (drop i w)).
    + now rewrite doUpload_upload.
  - left. destruct (nth_error (pending w) i) as [[]|]; auto.
    unfold load_end, onloadend. now rewrite send_upload.
  - left. destruct (nth_error (pending w) i) as [[]|]; auto.
    unfold read_error. now rewrite doUpload_catch_flags.
  - destruct (nth_error (pending w) i) as [[]|]; auto.
    unfold put_settled.
    destruct settled as [response|];
      [|left; apply (doUpload_catch_flags _ (drop i w))].
    destruct (uploadChunk_then response) as [e|reply] eqn:Hreply;
      [left; apply (doUpload_catch_flags _ (drop i w))|].
    unfold doUpload_then. change (upload (drop i w)) with (upload w).
    destruct (Status_eqb (currentState (upload w)) INPROGRESS) eqn:Hs;
      cbn [negb]; [|now left].
    assert (Hin : currentState (upload w) = INPROGRESS)
      by (destruct (currentState (upload w)); (reflexivity || discriminate)).
    destruct reply as [|o].
    + right. split; [exact Hin|]. split.
      * destruct (flags_inv _ _ _ _ (set_done_flags (drop i w))) as (D & _).
        unfold currentState. now rewrite D.
      * exists i, response. split; [reflexivity|].
        now apply reply_done_status.
    + left. destruct (truthy o).
      * apply (set_progress_then_doUpload_flags o offset (drop i w)).
      * apply (doUpload_catch_flags _ (drop i w)).
  - left. destruct (nth_error (pending w) i) as [[]|]; auto.
    apply (doUpload_catch_flags _ (drop i w)).
Qed.

Lemma only_completion_changes_the_status_witness :
  currentState (upload (step (PutSettled 0 Rejected) sending26)) = INPROGRESS /\
  currentState (upload (step (ReadError 0 0)
                          (step (SessionSettled 0 session_ok) world26)))
    = INPROGRESS.
Proof.
  split.
  - destruct (only_completion_changes_the_status (PutSettled 0 Rejected)
                sending26 ltac:(intros; discriminate) ltac:(discriminate)
                ltac:(discriminate) ltac:(discriminate) ltac:(discriminate))
      as [F | (_ & _ & i & r & E & _)].
    + now rewrite (flags_status _ _ F).
    + discriminate E.
  - destruct (only_completion_changes_the_status (ReadError 0 0)
                (step (SessionSettled 0 session_ok) world26)
                ltac:(intros; discriminate) ltac:(discriminate)
                ltac:(discriminate) ltac:(discriminate) ltac:(discriminate))
      as [F | (_ & _ & i & r & E & _)].
    + now rewrite (flags_status _ _ F).
    + discriminate E.
Defined.
